(** * GenevaClock: the stepper driver and the clock mechanics

    A shallow embedding of [GenericClockBoard] (the stepper phase sequencer,
    GenericClockBoard.cpp/.h) and of [GenevaClockMechanics] (time update and
    homing, GenevaClockMechanics.cpp/.h), with the properties of the
    natural-language specification stated over it.

    Integers are modelled as [Z] with the 32-bit wrap-around of the target
    (ESP32) written out.  The hardware the code talks to (the GPIO output
    register, the busy-wait delays, the home input and the motor shaft) is a
    simulated world carried next to the driver's own fields. *)

From Stdlib Require Import ZArith List Bool Lia.
Import ListNotations.
Local Open Scope Z_scope.

(** ** 32-bit integers *)

Module Int32.

Definition INT32_MIN : Z := -2147483648.
Definition INT32_MAX : Z := 2147483647.

(** Conversion to [uint32_t]: reduction modulo 2^32. *)
Definition to_uint32 (z : Z) : Z := z mod 4294967296.

(** Conversion to [int32_t]: two's-complement wrap-around. *)
Definition to_int32 (z : Z) : Z := (z + 2147483648) mod 4294967296 - 2147483648.

Definition in_int32 (z : Z) : Prop := INT32_MIN <= z <= INT32_MAX.

(** [abs] on [int32_t].  The negation of INT32_MIN does not fit and C leaves
    [abs(INT32_MIN)] undefined; the value taken here is the one of
    two's-complement negation, which wraps and gives INT32_MIN back.  For
    every other count [abs] is defined and this is its value. *)
Definition abs32 (z : Z) : Z := to_int32 (Z.abs z).

Lemma to_int32_small z : in_int32 z -> to_int32 z = z.
Proof.
  unfold in_int32, INT32_MIN, INT32_MAX, to_int32. intros H.
  rewrite Z.mod_small; lia.
Qed.

Lemma to_uint32_small z : 0 <= z < 4294967296 -> to_uint32 z = z.
Proof. unfold to_uint32. intros H. apply Z.mod_small; lia. Qed.

Lemma abs32_small z : INT32_MIN < z <= INT32_MAX -> abs32 z = Z.abs z.
Proof.
  unfold abs32, INT32_MIN, INT32_MAX. intros H.
  apply to_int32_small. unfold in_int32, INT32_MIN, INT32_MAX. lia.
Qed.

Lemma abs32_min : abs32 INT32_MIN = INT32_MIN.
Proof. reflexivity. Qed.

End Int32.
Import Int32.

(** ** Loops *)

(** [for (j = j0; j < j0 + n; j++) body]: [n] iterations, the counter handed
    to the body. *)
Fixpoint for_upto {S : Type} (n : nat) (j : Z) (body : Z -> S -> S) (s : S) : S :=
  match n with
  | O => s
  | Datatypes.S n' => for_upto n' (j + 1) body (body j s)
  end.

(** [a[i] = v] on an array held as a list (no store outside the array). *)
Fixpoint store (i : nat) (v : Z) (a : list Z) : list Z :=
  match a, i with
  | [], _ => []
  | _ :: r, O => v :: r
  | x :: r, Datatypes.S i' => x :: store i' v r
  end.

(** ** GenericClockBoard.h: types and constants *)

Inductive StepperSpeed_t : Type :=
| StepSlow    (* = -1 *)
| StepAuto    (* =  0 *)
| StepFast.   (* =  1 *)

Definition speed_is_slow (s : StepperSpeed_t) : bool :=
  match s with StepSlow => true | _ => false end.
Definition speed_is_auto (s : StepperSpeed_t) : bool :=
  match s with StepAuto => true | _ => false end.

Definition STEP_CW : Z := 1.
Definition STEP_CCW : Z := -1.

Definition PHASE_1_PIN : Z := 19.
Definition PHASE_2_PIN : Z := 16.
Definition PHASE_3_PIN : Z := 17.
Definition PHASE_4_PIN : Z := 21.
Definition NUM_STEPPER_PINS : Z := 4.

Definition StepperPins : list Z :=
  [PHASE_1_PIN; PHASE_2_PIN; PHASE_3_PIN; PHASE_4_PIN].
Definition StepperPinsReversed : list Z :=
  [PHASE_4_PIN; PHASE_3_PIN; PHASE_2_PIN; PHASE_1_PIN].

(** What the driver does to the outside world, in the order it does it. *)
Inductive hw_event : Type :=
| Ev_w1ts (bits : Z)               (* GPIO.out_w1ts = bits *)
| Ev_w1tc (bits : Z)               (* GPIO.out_w1tc = bits *)
| Ev_delayMicroseconds (us : Z)    (* delayMicroseconds(us) *)
| Ev_readHome (high : bool).       (* digitalRead(HOME_PIN) == HIGH *)

(** The fields fixed by the constructor. *)
Record StepperConfig : Type := {
  m_pStepperPins : list Z;
  m_NumStepperPhases : Z;        (* uint32_t, 4 or 8 *)
  m_StepperRapidDelayUs : Z;     (* uint32_t *)
  m_StepperClearMask : Z;        (* uint32_t *)
  m_StepperSequence : list Z;    (* uint32_t [8] *)
  m_InvertHome : bool
}.

(** The driver object together with the simulated hardware.
    [gpio_out] is the GPIO output register; [shaft] is the motor position in
    steps (one up for each clockwise phase step, one down for each
    counter-clockwise one); [home_reads] counts the reads of the home input;
    [log] holds the hardware events, newest first; [step_calls] holds the
    arguments of every call of [Step], newest first. *)
Record GenericClockBoard : Type := {
  cfg : StepperConfig;
  m_CurrentStepperPhase : Z;     (* int32_t *)
  gpio_out : Z;
  shaft : Z;
  home_reads : nat;
  log : list hw_event;
  step_calls : list (Z * StepperSpeed_t)
}.

Definition set_phase (p : Z) (b : GenericClockBoard) : GenericClockBoard :=
  {| cfg := cfg b; m_CurrentStepperPhase := p; gpio_out := gpio_out b;
     shaft := shaft b; home_reads := home_reads b; log := log b;
     step_calls := step_calls b |}.

Definition set_shaft (p : Z) (b : GenericClockBoard) : GenericClockBoard :=
  {| cfg := cfg b; m_CurrentStepperPhase := m_CurrentStepperPhase b;
     gpio_out := gpio_out b; shaft := p; home_reads := home_reads b;
     log := log b; step_calls := step_calls b |}.

Definition note_call (steps : Z) (speed : StepperSpeed_t) (b : GenericClockBoard)
  : GenericClockBoard :=
  {| cfg := cfg b; m_CurrentStepperPhase := m_CurrentStepperPhase b;
     gpio_out := gpio_out b; shaft := shaft b; home_reads := home_reads b;
     log := log b; step_calls := (steps, speed) :: step_calls b |}.

(** [GPIO.out_w1ts = bits]: the register bits named by [bits] are set. *)
Definition out_w1ts (bits : Z) (b : GenericClockBoard) : GenericClockBoard :=
  {| cfg := cfg b; m_CurrentStepperPhase := m_CurrentStepperPhase b;
     gpio_out := Z.lor (gpio_out b) bits; shaft := shaft b;
     home_reads := home_reads b; log := Ev_w1ts bits :: log b;
     step_calls := step_calls b |}.

(** [GPIO.out_w1tc = bits]: the register bits named by [bits] are cleared. *)
Definition out_w1tc (bits : Z) (b : GenericClockBoard) : GenericClockBoard :=
  {| cfg := cfg b; m_CurrentStepperPhase := m_CurrentStepperPhase b;
     gpio_out := Z.ldiff (gpio_out b) bits; shaft := shaft b;
     home_reads := home_reads b; log := Ev_w1tc bits :: log b;
     step_calls := step_calls b |}.

Definition delayMicroseconds (us : Z) (b : GenericClockBoard) : GenericClockBoard :=
  {| cfg := cfg b; m_CurrentStepperPhase := m_CurrentStepperPhase b;
     gpio_out := gpio_out b; shaft := shaft b; home_reads := home_reads b;
     log := Ev_delayMicroseconds us :: log b; step_calls := step_calls b |}.

(** [if (c) delayMicroseconds(us);] *)
Definition delay_if (c : bool) (us : Z) (b : GenericClockBoard) : GenericClockBoard :=
  if c then delayMicroseconds us b else b.

(** ** GenericClockBoard.cpp: the constructor *)

(** [PIN_BP(p)], that is [1UL << m_pStepperPins[p]]. *)
Definition PIN_BP (pins : list Z) (p : Z) : Z :=
  to_uint32 (Z.shiftl 1 (nth (Z.to_nat p) pins 0)).

(** One round of the loop that fills [m_StepperSequence]. *)
Definition init_sequence_body (pins : list Z) (phases : Z) (i : Z) (a : list Z)
  : list Z :=
  if phases =? 4 then store (Z.to_nat i) (PIN_BP pins i) a
  else
    let j := 2 * i in
    let a := store (Z.to_nat j) (PIN_BP pins i) a in
    store (Z.to_nat (j + 1))
          (Z.lor (PIN_BP pins i) (PIN_BP pins ((i + 1) mod NUM_STEPPER_PINS))) a.

(** The constructor.  The array [m_StepperSequence] is not initialised by the
    source; the entries it never writes are taken as 0 here.  The output
    register starts at 0 and [digitalWrite(pin, LOW)] on the four pins leaves
    it so.  The division by [stepsPerRev] traps when that is zero: no object
    is built then. *)
Definition GenericClockBoard_ctor
    (rapidSecondsPerRev fullStepsPerRev : Z)
    (stepperPinsReversed stepperHalfStepping homeNormallyOpen : bool)
  : option GenericClockBoard :=
  let pins := if stepperPinsReversed then StepperPinsReversed else StepperPins in
  let phases := if stepperHalfStepping then 8 else 4 in
  let stepsPerRev :=
    to_uint32 (fullStepsPerRev * (if stepperHalfStepping then 2 else 1)) in
  let US_PER_SEC := 1000000 in
  if stepsPerRev =? 0 then None
  else
    Some {|
      cfg := {|
        m_pStepperPins := pins;
        m_NumStepperPhases := phases;
        m_StepperRapidDelayUs :=
          to_uint32 (US_PER_SEC * rapidSecondsPerRev) / stepsPerRev;
        m_StepperClearMask :=
          Z.lor (Z.lor (Z.lor (PIN_BP pins 0) (PIN_BP pins 1)) (PIN_BP pins 2))
                (PIN_BP pins 3);
        m_StepperSequence :=
          for_upto (Z.to_nat NUM_STEPPER_PINS) 0
                   (init_sequence_body pins phases) (repeat 0 8);
        m_InvertHome := homeNormallyOpen
      |};
      m_CurrentStepperPhase := 0;
      gpio_out := 0;
      shaft := 0;
      home_reads := O;
      log := [];
      step_calls := []
    |}.

(** ** GenericClockBoard.cpp: Step *)

(** The phase index after one step: [(m_CurrentStepperPhase + delta) %
    m_NumStepperPhases], the sum an [int32_t] converted to [uint32_t] for the
    remainder. *)
Definition next_phase (phases delta phase : Z) : Z :=
  to_int32 (to_uint32 (to_int32 (phase + delta)) mod phases).

(** The body of the stepping loop, for the counter value [j]. *)
Definition step_iteration (speed : StepperSpeed_t) (steps delta absSteps : Z)
    (j : Z) (b : GenericClockBoard) : GenericClockBoard :=
  let R := m_StepperRapidDelayUs (cfg b) in
  let b := set_phase
             (next_phase (m_NumStepperPhases (cfg b)) delta (m_CurrentStepperPhase b)) b in
  let b := out_w1ts
             (nth (Z.to_nat (m_CurrentStepperPhase b)) (m_StepperSequence (cfg b)) 0) b in
  (* the motor follows the new phase by one step *)
  let b := set_shaft (if steps >? 0 then shaft b + 1 else shaft b - 1) b in
  let b := delayMicroseconds R b in
  let b :=
    if speed_is_slow speed then delayMicroseconds (to_uint32 (R * 4)) b
    else if speed_is_auto speed then
      let b := delay_if (j <? 20) R b in
      let b := delay_if (j <? 10) R b in
      let b := delay_if (j <? 5) R b in
      let b := delay_if (absSteps - j <? 20) R b in
      let b := delay_if (absSteps - j <? 10) R b in
      delay_if (absSteps - j <? 5) R b
    else b in
  out_w1tc (m_StepperClearMask (cfg b)) b.

Definition Step (steps : Z) (speed : StepperSpeed_t) (b : GenericClockBoard)
  : GenericClockBoard :=
  let b := note_call steps speed b in
  if steps =? 0 then out_w1tc (m_StepperClearMask (cfg b)) b
  else
    let delta :=
      to_int32 (if steps >? 0 then 1
                else to_uint32 (m_NumStepperPhases (cfg b) - 1)) in
    let absSteps := abs32 steps in
    for_upto (Z.to_nat absSteps) 0 (step_iteration speed steps delta absSteps) b.

(** ** GenevaClockMechanics.h: types and constants *)

Inductive StatusCode_t : Type :=
| StatusSuccess              (* = 0 *)
| StatusHomePhase1Error
| StatusHomePhase2Error
| StatusHomePhase3Error.

Definition MINUTES_PER_HOUR : Z := 60.
Definition HOURS_PER_REV : Z := 3.
Definition HOURS_PER_CYCLE : Z := 12.
Definition MINUTES_PER_CYCLE : Z := to_int32 (to_uint32 (MINUTES_PER_HOUR * HOURS_PER_CYCLE)).
Definition GEAR_RATIO : Z := 32 / 8.

(** The two fields of [struct tm] that the clock reads (both [int]). *)
Record tm : Type := { tm_hour : Z; tm_min : Z }.

(** The clock object: the base-class part [board] and the instance data. *)
Record GenevaClockMechanics : Type := {
  board : GenericClockBoard;
  m_LastStepperPos : Z;          (* int32_t *)
  m_LastMinutes : Z;             (* int32_t *)
  m_StepsPerHour : Z;            (* uint32_t *)
  m_StepsPerCycle : Z            (* int32_t *)
}.

Definition set_board (b : GenericClockBoard) (c : GenevaClockMechanics)
  : GenevaClockMechanics :=
  {| board := b; m_LastStepperPos := m_LastStepperPos c;
     m_LastMinutes := m_LastMinutes c; m_StepsPerHour := m_StepsPerHour c;
     m_StepsPerCycle := m_StepsPerCycle c |}.

(** Results of code that can trap (an integer division by zero) or whose
    model is cut off by a step bound: [None] is "no result". *)
Definition bind {A B : Type} (o : option A) (k : A -> option B) : option B :=
  match o with
  | Some a => k a
  | None => None
  end.

Notation "'do' x <- e ;; k" := (bind e (fun x => k))
  (at level 10, x name, e at level 100, k at level 200).

(** ** GenevaClockMechanics.cpp: the constructor *)

Definition GenevaClockMechanics_ctor
    (rapidSecondsPerRev fullStepsPerRev : Z)
    (stepperPinsReversed stepperHalfStepping homeNormallyOpen : bool)
  : option GenevaClockMechanics :=
  do b <- GenericClockBoard_ctor rapidSecondsPerRev fullStepsPerRev
            stepperPinsReversed stepperHalfStepping homeNormallyOpen ;;
  let stepsPerRev :=
    to_uint32 (fullStepsPerRev * (if stepperHalfStepping then 2 else 1)) in
  Some {|
    board := b;
    m_LastStepperPos := 0;
    m_LastMinutes := 0;
    m_StepsPerHour := to_uint32 (stepsPerRev * GEAR_RATIO) / HOURS_PER_REV;
    m_StepsPerCycle :=
      to_int32 (to_uint32 (to_uint32 (stepsPerRev * GEAR_RATIO)
                           * (HOURS_PER_CYCLE / HOURS_PER_REV)))
  |}.

(** ** GenevaClockMechanics.cpp: UpdateClock *)

(** [newTimeInMinutes]: the hour and the minute are [int], the constants
    [uint32_t], so the sum is formed in [uint32_t] and stored in an
    [int32_t]. *)
Definition newTimeInMinutes (localTime : tm) : Z :=
  to_int32
    (to_uint32
       (to_uint32 ((to_uint32 (tm_hour localTime) mod HOURS_PER_CYCLE)
                   * MINUTES_PER_HOUR)
        + to_uint32 (tm_min localTime))).

(** [newMotorPos]: [(newTimeInMinutes * m_StepsPerCycle) / MINUTES_PER_CYCLE]
    in [int32_t], the division truncating. *)
Definition newMotorPos (stepsPerCycle minutes : Z) : Z :=
  Z.quot (to_int32 (minutes * stepsPerCycle)) MINUTES_PER_CYCLE.

(** The two-branch adjustment of [deltaSteps]. *)
Definition normalize_delta (stepsPerCycle deltaSteps : Z) : Z :=
  if deltaSteps >? Z.quot stepsPerCycle 2
  then to_int32 (deltaSteps - stepsPerCycle)
  else if deltaSteps <? Z.quot (to_int32 (- stepsPerCycle)) 2
       then to_int32 (deltaSteps + stepsPerCycle)
       else deltaSteps.

(** [deltaSteps] as handed to [Step]. *)
Definition deltaSteps_of (c : GenevaClockMechanics) (minutes : Z) : Z :=
  normalize_delta (m_StepsPerCycle c)
    (to_int32 (newMotorPos (m_StepsPerCycle c) minutes - m_LastStepperPos c)).

(** [UpdateClock].  The remainder by [m_StepsPerCycle] traps when that is
    zero. *)
Definition UpdateClock (localTime : tm) (c : GenevaClockMechanics)
  : option GenevaClockMechanics :=
  let minutes := newTimeInMinutes localTime in
  if minutes =? m_LastMinutes c then Some c
  else
    let deltaSteps := deltaSteps_of c minutes in
    let b := Step deltaSteps StepAuto (board c) in
    if m_StepsPerCycle c =? 0 then None
    else
      Some {|
        board := b;
        m_LastStepperPos :=
          to_int32 (Z.rem (to_int32 (m_LastStepperPos c + deltaSteps))
                          (m_StepsPerCycle c));
        m_LastMinutes := minutes;
        m_StepsPerHour := m_StepsPerHour c;
        m_StepsPerCycle := m_StepsPerCycle c
      |}.

(** A run of [UpdateClock] calls, one per entry of [times]. *)
Fixpoint UpdateClock_all (times : list tm) (c : GenevaClockMechanics)
  : option GenevaClockMechanics :=
  match times with
  | [] => Some c
  | t :: rest => do c' <- UpdateClock t c ;; UpdateClock_all rest c'
  end.

(** ** GenericClockBoard.h: IsHome, and GenevaClockMechanics.cpp: Home *)

(** [MAX_STEPS = m_StepsPerCycle + m_StepsPerHour], formed in [uint32_t]. *)
Definition MAX_STEPS_of (c : GenevaClockMechanics) : Z :=
  to_uint32 (to_uint32 (m_StepsPerCycle c) + m_StepsPerHour c).

Section Homing.

(** The level of the home input, [true] for HIGH, as the simulated world
    gives it: it may depend on how many times the input has been read
    before and on where the motor shaft stands. *)
Variable home_pin_high : nat -> Z -> bool.

(** [(digitalRead(HOME_PIN) == HIGH) ^ m_InvertHome] for the read number
    [r] with the shaft at [p]. *)
Definition home_active (invert : bool) (r : nat) (p : Z) : bool :=
  xorb (home_pin_high r p) invert.

Definition IsHome (b : GenericClockBoard) : bool * GenericClockBoard :=
  let high := home_pin_high (home_reads b) (shaft b) in
  (xorb high (m_InvertHome (cfg b)),
   {| cfg := cfg b; m_CurrentStepperPhase := m_CurrentStepperPhase b;
      gpio_out := gpio_out b; shaft := shaft b;
      home_reads := S (home_reads b); log := Ev_readHome high :: log b;
      step_calls := step_calls b |}).

(** The three loops of [Home] have one shape:
    [for (i = 0; IsHome() == while_home && (i < limit); i++) Step(steps, speed);]
    ([IsHome()] is evaluated first and is read even when [i] has reached
    [limit]).  [fuel] bounds the number of rounds of the model; [None] is
    returned when it is used up. *)
Fixpoint home_loop (while_home : bool) (steps : Z) (speed : StepperSpeed_t)
    (limit : Z) (fuel : nat) (i : Z) (b : GenericClockBoard)
  : option (Z * GenericClockBoard) :=
  match fuel with
  | O => None
  | S fuel' =>
      let (h, b1) := IsHome b in
      if Bool.eqb h while_home && (i <? limit)
      then home_loop while_home steps speed limit fuel' (i + 1) (Step steps speed b1)
      else Some (i, b1)
  end.

(** Fuel for a loop whose counter stops at [limit]. *)
Definition loop_fuel (limit : Z) : nat := S (Z.to_nat limit).

Definition Home (c : GenevaClockMechanics)
  : option (StatusCode_t * GenevaClockMechanics) :=
  let MAX_STEPS := MAX_STEPS_of c in
  (* Phase 1 *)
  do r1 <- home_loop false STEP_CW StepFast MAX_STEPS (loop_fuel MAX_STEPS) 0 (board c) ;;
  if fst r1 >=? MAX_STEPS then Some (StatusHomePhase1Error, set_board (snd r1) c)
  else
    (* Phase 2 *)
    do r2 <- home_loop true STEP_CCW StepFast (m_StepsPerHour c)
               (loop_fuel (m_StepsPerHour c)) 0 (snd r1) ;;
    if fst r2 >=? m_StepsPerHour c
    then Some (StatusHomePhase2Error, set_board (snd r2) c)
    else
      (* Phase 3 *)
      do r3 <- home_loop false STEP_CW StepSlow (m_StepsPerHour c)
                 (loop_fuel (m_StepsPerHour c)) 0 (snd r2) ;;
      if fst r3 >=? m_StepsPerHour c
      then Some (StatusHomePhase3Error, set_board (snd r3) c)
      else
        Some (StatusSuccess,
              {| board := snd r3; m_LastStepperPos := 0; m_LastMinutes := 0;
                 m_StepsPerHour := m_StepsPerHour c;
                 m_StepsPerCycle := m_StepsPerCycle c |}).

End Homing.

(** ** Observing a run *)

(** The hardware events, in order, that happened since the log was [old]. *)
Definition events_since (old : list hw_event) (b : GenericClockBoard)
  : list hw_event :=
  rev (firstn (length (log b) - length old) (log b)).

(** The phase patterns written to the output register, in order: one per
    round of the stepping loop. *)
Fixpoint pulses (evs : list hw_event) : list Z :=
  match evs with
  | [] => []
  | Ev_w1ts bits :: rest => bits :: pulses rest
  | _ :: rest => pulses rest
  end.

(** The time spent in each round of the stepping loop: the delays between a
    write of a phase pattern and the clearing write that ends the round. *)
Fixpoint delay_per_pulse (acc : Z) (evs : list hw_event) : list Z :=
  match evs with
  | [] => []
  | Ev_w1ts _ :: rest => delay_per_pulse 0 rest
  | Ev_delayMicroseconds us :: rest => delay_per_pulse (acc + us) rest
  | Ev_w1tc _ :: rest => acc :: delay_per_pulse 0 rest
  | Ev_readHome _ :: rest => delay_per_pulse acc rest
  end.

(** How many of the six thresholds of the StepAuto profile hold in round [j]
    of a move of [n] steps. *)
Definition auto_conditions_met (n j : Z) : Z :=
  Z.b2z (j <? 20) + Z.b2z (j <? 10) + Z.b2z (j <? 5)
  + Z.b2z (n - j <? 20) + Z.b2z (n - j <? 10) + Z.b2z (n - j <? 5).

(** The driver state is as the constructor and [Step] leave it: 4 or 8
    phases and the phase index inside the table. *)
Definition phase_ok (b : GenericClockBoard) : Prop :=
  (m_NumStepperPhases (cfg b) = 4 \/ m_NumStepperPhases (cfg b) = 8) /\
  0 <= m_CurrentStepperPhase b < m_NumStepperPhases (cfg b).

(** The configuration is one the constructor builds. *)
Definition constructed (b : GenericClockBoard) : Prop :=
  exists rapid full reversed half normallyOpen b0,
    GenericClockBoard_ctor rapid full reversed half normallyOpen = Some b0 /\
    cfg b = cfg b0.

(** The statement on a zero count: every phase output is deasserted (each
    stepper pin reads 0 in the output register, and no pattern of the phase
    table has a bit left set there), the only hardware event is the clearing
    write, so no round of the stepping loop ran, and the phase index, the
    configuration, the shaft and the home input are as before. *)
Definition Step_zero_is_idle (speed : StepperSpeed_t) (b : GenericClockBoard)
  : Prop :=
  let b' := Step 0 speed b in
  (forall pin, In pin (m_pStepperPins (cfg b)) -> Z.testbit (gpio_out b') pin = false) /\
  (forall k, Z.land (gpio_out b') (nth k (m_StepperSequence (cfg b)) 0) = 0) /\
  events_since (log b) b' = [Ev_w1tc (m_StepperClearMask (cfg b))] /\
  m_CurrentStepperPhase b' = m_CurrentStepperPhase b /\
  cfg b' = cfg b /\ shaft b' = shaft b /\ home_reads b' = home_reads b.

(** The statement on direction and iteration count: [Step] makes [|steps|]
    rounds, round [k] (from 1) puts out the pattern of the phase
    [(phase + k * d) mod phases] with [d] = 1 for a positive count and
    [phases - 1] for a negative one, and the phase index ends there. *)
Definition Step_moves_as_specified (steps : Z) (speed : StepperSpeed_t)
    (b : GenericClockBoard) : Prop :=
  let N := m_NumStepperPhases (cfg b) in
  let d := if steps >? 0 then 1 else N - 1 in
  let b' := Step steps speed b in
  Z.of_nat (length (pulses (events_since (log b) b'))) = Z.abs steps /\
  pulses (events_since (log b) b') =
    map (fun k => nth (Z.to_nat ((m_CurrentStepperPhase b + Z.of_nat k * d) mod N))
                      (m_StepperSequence (cfg b)) 0)
        (seq 1 (Z.to_nat (Z.abs steps))) /\
  m_CurrentStepperPhase b' = (m_CurrentStepperPhase b + Z.abs steps * d) mod N.




(** The statement on the StepAuto profile: round [j] of a move of
    [n = |steps|] steps waits the rapid delay times one plus the number of
    thresholds met. *)
Definition Step_auto_delays_as_specified (steps : Z) (b : GenericClockBoard)
  : Prop :=
  let n := Z.abs steps in
  forall j, 0 <= j < n ->
    nth_error (delay_per_pulse 0 (events_since (log b) (Step steps StepAuto b)))
              (Z.to_nat j)
    = Some (m_StepperRapidDelayUs (cfg b) * (1 + auto_conditions_met n j)).

(** The outcome the homing statement asks for. *)
Definition Home_succeeds (home_pin_high : nat -> Z -> bool)
    (c : GenevaClockMechanics) : Prop :=
  exists c',
    Home home_pin_high c = Some (StatusSuccess, c') /\
    m_LastStepperPos c' = 0 /\ m_LastMinutes c' = 0.

(** The clock of the example configuration: a 28BYJ-48 motor (2048 full
    steps per revolution) half-stepped, 8 seconds per revolution, a normally
    open home switch. *)
Definition standard_clock : option GenevaClockMechanics :=
  GenevaClockMechanics_ctor 8 2048 false true true.

(** A simulated home input: the pin reads LOW (the normally open switch is
    closed) exactly while the shaft stands in [lo .. hi]. *)
Definition sensor_low_on (lo hi : Z) : nat -> Z -> bool :=
  fun _ p => negb ((lo <=? p) && (p <=? hi)).

(** * Properties *)

(** ** Bits of the output register *)

(** Bits that were cleared stay clear under a pattern inside the mask. *)
Lemma ldiff_land_inside (g mask x : Z) :
  Z.land x mask = x -> Z.land (Z.ldiff g mask) x = 0.
Proof.
  intros Hx. apply Z.bits_inj'. intros n Hn.
  rewrite Z.land_spec, Z.ldiff_spec, Z.bits_0.
  rewrite <- Hx, Z.land_spec.
  destruct (Z.testbit g n), (Z.testbit mask n), (Z.testbit x n); reflexivity.
Qed.

Lemma ldiff_testbit_mask (g mask n : Z) :
  Z.testbit mask n = true -> Z.testbit (Z.ldiff g mask) n = false.
Proof.
  intros Hm. rewrite Z.ldiff_spec, Hm. apply andb_false_r.
Qed.

(** ** The stepping loop *)

(** The delay calls of one round of the loop, in order. *)
Definition iteration_delays (speed : StepperSpeed_t) (R absSteps j : Z) : list Z :=
  R :: match speed with
       | StepSlow => [to_uint32 (R * 4)]
       | StepAuto =>
           (if j <? 20 then [R] else []) ++ (if j <? 10 then [R] else [])
           ++ (if j <? 5 then [R] else [])
           ++ (if absSteps - j <? 20 then [R] else [])
           ++ (if absSteps - j <? 10 then [R] else [])
           ++ (if absSteps - j <? 5 then [R] else [])
       | StepFast => []
       end.

(** The hardware events of one round, in order, [p] being the new phase. *)
Definition iteration_events (c : StepperConfig) (speed : StepperSpeed_t)
    (absSteps j p : Z) : list hw_event :=
  Ev_w1ts (nth (Z.to_nat p) (m_StepperSequence c) 0)
  :: map Ev_delayMicroseconds
         (iteration_delays speed (m_StepperRapidDelayUs c) absSteps j)
  ++ [Ev_w1tc (m_StepperClearMask c)].

(** The hardware events of [n] rounds from counter [j] and phase [p]. *)
Fixpoint loop_events (c : StepperConfig) (speed : StepperSpeed_t)
    (delta absSteps : Z) (n : nat) (j p : Z) : list hw_event :=
  match n with
  | O => []
  | S n' =>
      let p' := next_phase (m_NumStepperPhases c) delta p in
      iteration_events c speed absSteps j p'
      ++ loop_events c speed delta absSteps n' (j + 1) p'
  end.

Ltac split_conditions :=
  repeat match goal with
         | |- context [if ?c then _ else _] => destruct c
         end.

Lemma step_iteration_frame speed steps delta absSteps j b :
  let b' := step_iteration speed steps delta absSteps j b in
  cfg b' = cfg b /\ home_reads b' = home_reads b /\
  step_calls b' = step_calls b /\
  m_CurrentStepperPhase b' =
    next_phase (m_NumStepperPhases (cfg b)) delta (m_CurrentStepperPhase b) /\
  shaft b' = (if steps >? 0 then shaft b + 1 else shaft b - 1).
Proof.
  unfold step_iteration, delay_if.
  destruct speed; cbn [speed_is_slow speed_is_auto];
    split_conditions; cbn; repeat split; reflexivity.
Qed.

Lemma step_iteration_log speed steps delta absSteps j b :
  log (step_iteration speed steps delta absSteps j b) =
  rev (iteration_events (cfg b) speed absSteps j
         (next_phase (m_NumStepperPhases (cfg b)) delta (m_CurrentStepperPhase b)))
  ++ log b.
Proof.
  unfold step_iteration, delay_if, iteration_events, iteration_delays.
  destruct speed; cbn [speed_is_slow speed_is_auto];
    split_conditions; reflexivity.
Qed.

(** What [n] rounds of the loop do to the driver. *)
Lemma stepping_loop speed steps delta absSteps n :
  forall j b,
    let b' := for_upto n j (step_iteration speed steps delta absSteps) b in
    cfg b' = cfg b /\ home_reads b' = home_reads b /\
    step_calls b' = step_calls b /\
    m_CurrentStepperPhase b' =
      Nat.iter n (next_phase (m_NumStepperPhases (cfg b)) delta)
               (m_CurrentStepperPhase b) /\
    shaft b' = shaft b + (if steps >? 0 then 1 else -1) * Z.of_nat n /\
    log b' =
      rev (loop_events (cfg b) speed delta absSteps n j (m_CurrentStepperPhase b))
      ++ log b.
Proof.
  induction n as [|n IH]; intros j b.
  - cbn. repeat split; try reflexivity. lia.
  - cbn [for_upto].
    destruct (step_iteration_frame speed steps delta absSteps j b)
      as (Hc & Hr & Hs & Hp & Hsh).
    pose proof (step_iteration_log speed steps delta absSteps j b) as Hl.
    destruct (IH (j + 1) (step_iteration speed steps delta absSteps j b))
      as (Hc' & Hr' & Hs' & Hp' & Hsh' & Hl').
    cbv zeta. rewrite Hc', Hr', Hs', Hp', Hsh', Hl', Hc, Hr, Hs, Hp, Hsh, Hl.
    repeat split; try reflexivity.
    + rewrite <- Nat.iter_succ_r. reflexivity.
    + destruct (steps >? 0); lia.
    + cbn [loop_events]. rewrite rev_app_distr, app_assoc. reflexivity.
Qed.

(** The number of rounds [Step] makes, and the per-step phase increment. *)
Definition Step_rounds (steps : Z) : nat := Z.to_nat (abs32 steps).
Definition Step_delta (phases steps : Z) : Z :=
  to_int32 (if steps >? 0 then 1 else to_uint32 (phases - 1)).

Lemma Step_nonzero steps speed b :
  steps <> 0 ->
  Step steps speed b =
  for_upto (Step_rounds steps) 0
    (step_iteration speed steps
       (Step_delta (m_NumStepperPhases (cfg b)) steps) (abs32 steps))
    (note_call steps speed b).
Proof.
  intros H. unfold Step. apply Z.eqb_neq in H. rewrite H. reflexivity.
Qed.

Lemma Step_zero_eq speed b :
  Step 0 speed b = out_w1tc (m_StepperClearMask (cfg b)) (note_call 0 speed b).
Proof. reflexivity. Qed.

(** [Step] never touches the configuration or the home input, and records
    its call. *)
Lemma Step_frame steps speed b :
  cfg (Step steps speed b) = cfg b /\
  home_reads (Step steps speed b) = home_reads b /\
  step_calls (Step steps speed b) = (steps, speed) :: step_calls b.
Proof.
  destruct (Z.eq_dec steps 0) as [->|Hnz].
  - rewrite Step_zero_eq. cbn. auto.
  - rewrite Step_nonzero by assumption.
    match goal with
    | |- context [for_upto ?n ?j (step_iteration ?sp ?st ?d ?a) ?b0] =>
        destruct (stepping_loop sp st d a n j b0) as (Hc & Hr & Hs & _)
    end.
    cbv zeta in *. rewrite Hc, Hr, Hs. cbn. auto.
Qed.

(** ** Phase arithmetic *)

Lemma next_phase_mod N d p :
  (N = 4 \/ N = 8) -> 0 <= p < N -> (d = 1 \/ d = N - 1) ->
  next_phase N d p = (p + d) mod N.
Proof.
  intros HN Hp Hd. unfold next_phase.
  rewrite (to_int32_small (p + d))
    by (unfold in_int32, INT32_MIN, INT32_MAX; lia).
  rewrite to_uint32_small by lia.
  apply to_int32_small. unfold in_int32, INT32_MIN, INT32_MAX.
  pose proof (Z.mod_pos_bound (p + d) N). lia.
Qed.

Lemma Step_delta_value N steps :
  (N = 4 \/ N = 8) ->
  Step_delta N steps = if steps >? 0 then 1 else N - 1.
Proof.
  intros HN. unfold Step_delta. destruct (steps >? 0); [reflexivity|].
  rewrite to_uint32_small by lia.
  apply to_int32_small. unfold in_int32, INT32_MIN, INT32_MAX. lia.
Qed.

Lemma iter_next_phase N d p n :
  (N = 4 \/ N = 8) -> 0 <= p < N -> (d = 1 \/ d = N - 1) ->
  Nat.iter n (next_phase N d) p = (p + Z.of_nat n * d) mod N.
Proof.
  intros HN Hp Hd. induction n as [|n IH].
  - cbn. rewrite Z.mod_small; lia.
  - rewrite Nat.iter_succ, IH.
    rewrite next_phase_mod; try assumption.
    + rewrite Zplus_mod_idemp_l. f_equal. lia.
    + apply Z.mod_pos_bound. lia.
Qed.

Lemma Step_rounds_abs steps :
  INT32_MIN < steps <= INT32_MAX -> Z.of_nat (Step_rounds steps) = Z.abs steps.
Proof.
  intros H. unfold Step_rounds. rewrite abs32_small by assumption. lia.
Qed.

(** The phase index after [Step], whatever the count. *)
Lemma Step_phase steps speed b :
  phase_ok b ->
  let N := m_NumStepperPhases (cfg b) in
  m_CurrentStepperPhase (Step steps speed b) =
  (m_CurrentStepperPhase b
   + Z.of_nat (if steps =? 0 then O else Step_rounds steps)
     * (if steps >? 0 then 1 else N - 1)) mod N.
Proof.
  intros [HN Hp] N. destruct (Z.eqb_spec steps 0) as [->|Hnz].
  - rewrite Step_zero_eq. cbn. rewrite Z.mod_small; lia.
  - rewrite Step_nonzero by assumption.
    match goal with
    | |- context [for_upto ?n ?j (step_iteration ?sp ?st ?d ?a) ?b0] =>
        destruct (stepping_loop sp st d a n j b0) as (_ & _ & _ & Hph & _)
    end.
    cbv zeta in Hph. rewrite Hph. cbn [note_call cfg m_CurrentStepperPhase].
    rewrite Step_delta_value by assumption.
    apply iter_next_phase; try assumption.
    destruct (steps >? 0); auto.
Qed.

Lemma Step_phase_ok steps speed b : phase_ok b -> phase_ok (Step steps speed b).
Proof.
  intros H. pose proof (Step_phase steps speed b H) as Hph.
  destruct (Step_frame steps speed b) as (Hc & _).
  destruct H as [HN Hp]. unfold phase_ok. rewrite Hc. split; [assumption|].
  cbv zeta in Hph. rewrite Hph. apply Z.mod_pos_bound. lia.
Qed.

(** ** The events of a call *)

Lemma firstn_length_app {A : Type} (a l : list A) : firstn (length a) (a ++ l) = a.
Proof. induction a as [|x a IH]; cbn; [destruct l|]; congruence. Qed.

Lemma events_since_app (X : list hw_event) b b' :
  log b' = rev X ++ log b -> events_since (log b) b' = X.
Proof.
  intros H. unfold events_since. rewrite H.
  replace (length (rev X ++ log b) - length (log b))%nat with (length (rev X)).
  - rewrite firstn_length_app. apply rev_involutive.
  - rewrite length_app. lia.
Qed.

Lemma Step_events steps speed b :
  steps <> 0 ->
  events_since (log b) (Step steps speed b) =
  loop_events (cfg b) speed (Step_delta (m_NumStepperPhases (cfg b)) steps)
              (abs32 steps) (Step_rounds steps) 0 (m_CurrentStepperPhase b).
Proof.
  intros Hnz. apply events_since_app. rewrite Step_nonzero by assumption.
  match goal with
  | |- context [for_upto ?n ?j (step_iteration ?sp ?st ?d ?a) ?b0] =>
      destruct (stepping_loop sp st d a n j b0) as (_ & _ & _ & _ & _ & Hl)
  end.
  exact Hl.
Qed.

Lemma pulses_delays ds rest :
  pulses (map Ev_delayMicroseconds ds ++ rest) = pulses rest.
Proof. induction ds as [|d ds IH]; cbn; auto. Qed.

Lemma pulses_iteration c speed absSteps j p rest :
  pulses (iteration_events c speed absSteps j p ++ rest) =
  nth (Z.to_nat p) (m_StepperSequence c) 0 :: pulses rest.
Proof.
  unfold iteration_events. cbn [app pulses]. f_equal.
  rewrite <- app_assoc, pulses_delays. reflexivity.
Qed.

Lemma pulses_loop_events c speed delta absSteps n :
  forall j p,
    pulses (loop_events c speed delta absSteps n j p) =
    map (fun k => nth (Z.to_nat (Nat.iter k (next_phase (m_NumStepperPhases c) delta) p))
                      (m_StepperSequence c) 0)
        (seq 1 n).
Proof.
  induction n as [|n IH]; intros j p; [reflexivity|].
  cbn [loop_events]. rewrite pulses_iteration, IH.
  cbn [seq map]. f_equal.
  rewrite <- (seq_shift n 1), map_map. apply map_ext. intros k.
  rewrite Nat.iter_succ_r. reflexivity.
Qed.

Lemma delay_per_pulse_delays ds acc m rest :
  delay_per_pulse acc (map Ev_delayMicroseconds ds ++ Ev_w1tc m :: rest) =
  (acc + fold_right Z.add 0 ds) :: delay_per_pulse 0 rest.
Proof.
  revert acc. induction ds as [|d ds IH]; intros acc; cbn.
  - f_equal. lia.
  - rewrite IH. f_equal. lia.
Qed.

Lemma auto_delays_total R absSteps j :
  fold_right Z.add 0 (iteration_delays StepAuto R absSteps j) =
  R * (1 + auto_conditions_met absSteps j).
Proof.
  unfold iteration_delays, auto_conditions_met.
  destruct (j <? 20), (j <? 10), (j <? 5), (absSteps - j <? 20),
    (absSteps - j <? 10), (absSteps - j <? 5); cbn [app fold_right Z.b2z]; lia.
Qed.

Lemma delay_per_pulse_loop_events c delta absSteps n :
  forall j p k, (k < n)%nat ->
    nth_error (delay_per_pulse 0 (loop_events c StepAuto delta absSteps n j p)) k
    = Some (m_StepperRapidDelayUs c
            * (1 + auto_conditions_met absSteps (j + Z.of_nat k))).
Proof.
  induction n as [|n IH]; intros j p k Hk; [lia|].
  cbn [loop_events]. unfold iteration_events.
  cbn [app delay_per_pulse]. rewrite <- app_assoc. cbn [app].
  rewrite delay_per_pulse_delays, auto_delays_total.
  destruct k as [|k]; cbn [nth_error].
  - replace (j + Z.of_nat 0) with j by lia. reflexivity.
  - rewrite IH by lia.
    replace (j + 1 + Z.of_nat k) with (j + Z.of_nat (S k)) by lia. reflexivity.
Qed.

(** A move of two steps at StepAuto on the example board: two rounds, each
    a phase pattern, seven rapid delays (all six thresholds hold) and the
    clearing write. *)
Example Step_two_auto_trace :
  option_map (fun b => (pulses (events_since (log b) (Step 2 StepAuto b)),
                        delay_per_pulse 0 (events_since (log b) (Step 2 StepAuto b)),
                        m_CurrentStepperPhase (Step 2 StepAuto b)))
             (GenericClockBoard_ctor 8 2048 false true true)
  = Some ([589824; 65536], [13671; 13671], 2).
Proof. vm_compute. reflexivity. Qed.

(** A move of 25 steps at StepAuto: slow at both ends, faster in between. *)
Example Step_25_auto_delays :
  option_map (fun b => delay_per_pulse 0 (events_since (log b) (Step 25 StepAuto b)))
             (GenericClockBoard_ctor 8 2048 false true true)
  = Some [7812; 7812; 7812; 7812; 7812; 5859; 7812; 7812; 7812; 7812; 5859;
          5859; 5859; 5859; 5859; 5859; 7812; 7812; 7812; 7812; 5859; 7812;
          7812; 7812; 7812].
Proof. vm_compute. reflexivity. Qed.

(** ** The constructor's configuration *)

Lemma constructed_cases b :
  constructed b ->
  m_StepperClearMask (cfg b) = 2818048 /\
  (m_pStepperPins (cfg b) = StepperPins \/
   m_pStepperPins (cfg b) = StepperPinsReversed) /\
  (m_NumStepperPhases (cfg b) = 4 \/ m_NumStepperPhases (cfg b) = 8) /\
  Forall (fun x => Z.land x 2818048 = x) (m_StepperSequence (cfg b)).
Proof.
  intros (rapid & full & reversed & half & no & b0 & Hc & Hcfg).
  unfold GenericClockBoard_ctor in Hc.
  destruct (to_uint32 (full * (if half then 2 else 1)) =? 0); [discriminate|].
  injection Hc as <-. rewrite Hcfg.
  cbn [cfg m_StepperClearMask m_pStepperPins m_NumStepperPhases m_StepperSequence].
  destruct reversed, half;
    (split; [reflexivity|]); (split; [auto|]); (split; [auto|]);
    match goal with
    | |- Forall ?P ?l =>
        let l' := eval vm_compute in l in change (Forall P l')
    end;
    repeat constructor.
Qed.

Lemma constructed_phase_ok rapid full reversed half no b :
  GenericClockBoard_ctor rapid full reversed half no = Some b ->
  constructed b /\ phase_ok b.
Proof.
  intros Hc. split.
  - exists rapid, full, reversed, half, no, b. auto.
  - unfold GenericClockBoard_ctor in Hc.
    destruct (to_uint32 (full * (if half then 2 else 1)) =? 0); [discriminate|].
    injection Hc as <-. unfold phase_ok. cbn. destruct half; lia.
Qed.

(** ** Step with a zero count *)

(** C7.  For both phase counts (any configuration the constructor builds)
    and every speed, [Step(0, speed)] deasserts all the phase outputs and
    returns without a round of the stepping loop; the phase index and the
    rest of the driver state are unchanged. *)
Theorem Step_zero_idle speed b : constructed b -> Step_zero_is_idle speed b.
Proof.
  intros Hb. destruct (constructed_cases b Hb) as (Hm & Hpins & _ & Hseq).
  unfold Step_zero_is_idle. rewrite Step_zero_eq.
  cbn [out_w1tc note_call gpio_out cfg m_CurrentStepperPhase shaft home_reads].
  repeat split.
  - intros pin Hin. apply ldiff_testbit_mask. rewrite Hm.
    destruct Hpins as [Hpins | Hpins]; rewrite Hpins in Hin; cbn in Hin;
      repeat (destruct Hin as [<- | Hin]; [reflexivity|]); contradiction.
  - intros k. apply ldiff_land_inside. rewrite Hm.
    destruct (Nat.lt_ge_cases k (length (m_StepperSequence (cfg b)))) as [Hk|Hk].
    + exact (proj1 (Forall_nth _ _) Hseq k 0 Hk).
    + rewrite nth_overflow by assumption. reflexivity.
  - apply events_since_app. reflexivity.
Qed.

Lemma Step_zero_idle_witness :
  (exists b, GenericClockBoard_ctor 8 2048 false true true = Some b /\
             constructed b /\ m_NumStepperPhases (cfg b) = 8 /\
             Step_zero_is_idle StepAuto b) /\
  (exists b, GenericClockBoard_ctor 8 2048 true false true = Some b /\
             constructed b /\ m_NumStepperPhases (cfg b) = 4 /\
             Step_zero_is_idle StepSlow b).
Proof.
  split.
  - eexists. split; [reflexivity|].
    match goal with
    | |- constructed ?b /\ _ =>
        assert (Hc : constructed b)
          by (exists 8, 2048, false, true, true, b; split; reflexivity)
    end.
    split; [exact Hc|]. split; [reflexivity|].
    exact (Step_zero_idle StepAuto _ Hc).
  - eexists. split; [reflexivity|].
    match goal with
    | |- constructed ?b /\ _ =>
        assert (Hc : constructed b)
          by (exists 8, 2048, true, false, true, b; split; reflexivity)
    end.
    split; [exact Hc|]. split; [reflexivity|].
    exact (Step_zero_idle StepSlow _ Hc).
Defined.

(** ** Direction and iteration count *)

(** C6, amended.  For every nonzero count other than INT32_MIN, [Step] makes
    exactly [|steps|] rounds; a positive count advances the phase index by 1
    modulo the phase count in each round, a negative one by the phase count
    less 1. *)
Theorem Step_direction_and_count steps speed b :
  phase_ok b -> steps <> 0 -> INT32_MIN < steps <= INT32_MAX ->
  Step_moves_as_specified steps speed b.
Proof.
  intros Hok Hnz Hrange. pose proof Hok as [HN Hp].
  assert (Hrounds : Step_rounds steps = Z.to_nat (Z.abs steps))
    by (unfold Step_rounds; rewrite abs32_small by assumption; reflexivity).
  unfold Step_moves_as_specified. cbv zeta.
  rewrite Step_events by assumption.
  rewrite pulses_loop_events, Step_delta_value by assumption.
  repeat split.
  - rewrite length_map, length_seq, Hrounds. lia.
  - rewrite Hrounds. apply map_ext. intros k.
    rewrite iter_next_phase; try assumption; [reflexivity|].
    destruct (steps >? 0); auto.
  - rewrite (Step_phase steps speed b Hok).
    apply Z.eqb_neq in Hnz. rewrite Hnz.
    rewrite Step_rounds_abs by assumption. reflexivity.
Qed.

Lemma Step_direction_and_count_witness :
  exists b, GenericClockBoard_ctor 8 2048 false true true = Some b /\
            phase_ok b /\ -3 <> 0 /\ INT32_MIN < -3 <= INT32_MAX /\
            Step_moves_as_specified (-3) StepSlow b.
Proof.
  eexists. split; [reflexivity|].
  match goal with
  | |- phase_ok ?b /\ _ =>
      assert (Hok : phase_ok b)
        by (unfold phase_ok; cbn [cfg m_NumStepperPhases m_CurrentStepperPhase]; lia)
  end.
  assert (Hr : INT32_MIN < -3 <= INT32_MAX) by (unfold INT32_MIN, INT32_MAX; lia).
  assert (Hnz : -3 <> 0) by lia.
  split; [exact Hok|]. split; [exact Hnz|]. split; [exact Hr|].
  exact (Step_direction_and_count (-3) StepSlow _ Hok Hnz Hr).
Defined.

(** Where the statement as written fails: INT32_MIN is a nonzero count, its
    magnitude is 2^31, and [Step] makes no round at all for it ([abs]
    wrapping; an [int32_t] counter makes 2^31 rounds under no reading). *)
Lemma Step_INT32_MIN_makes_no_round :
  exists b, GenericClockBoard_ctor 8 2048 false true true = Some b /\
            ~ Step_moves_as_specified INT32_MIN StepFast b.
Proof.
  eexists. split; [reflexivity|].
  intros [Hcount _]. vm_compute in Hcount. discriminate Hcount.
Qed.

(** ** The StepAuto delay profile *)

(** C5, amended.  For every nonzero count other than INT32_MIN, with
    [n = |steps|], round [j] (0 to n-1) of [Step(steps, StepAuto)] waits the
    rapid delay times one plus the number of the thresholds j<20, j<10, j<5,
    n-j<20, n-j<10, n-j<5 that hold. *)
Theorem Step_auto_profile steps b :
  steps <> 0 -> INT32_MIN < steps <= INT32_MAX ->
  Step_auto_delays_as_specified steps b.
Proof.
  intros Hnz Hrange. unfold Step_auto_delays_as_specified. intros j Hj.
  rewrite Step_events by assumption.
  rewrite delay_per_pulse_loop_events.
  - rewrite abs32_small by assumption. do 4 f_equal. lia.
  - unfold Step_rounds. rewrite abs32_small by assumption. lia.
Qed.

Lemma Step_auto_profile_witness :
  exists b, GenericClockBoard_ctor 8 2048 false true true = Some b /\
            30 <> 0 /\ INT32_MIN < 30 <= INT32_MAX /\
            Step_auto_delays_as_specified 30 b.
Proof.
  eexists. split; [reflexivity|].
  assert (Hr : INT32_MIN < 30 <= INT32_MAX) by (unfold INT32_MIN, INT32_MAX; lia).
  assert (Hnz : 30 <> 0) by lia.
  split; [exact Hnz|]. split; [exact Hr|].
  exact (Step_auto_profile 30 _ Hnz Hr).
Defined.

(** Where the statement as written fails: for INT32_MIN there is no round 0
    ([abs] wrapping), hence no delay of round 0. *)
Lemma Step_auto_INT32_MIN_has_no_round :
  exists b, GenericClockBoard_ctor 8 2048 false true true = Some b /\
            ~ Step_auto_delays_as_specified INT32_MIN b.
Proof.
  eexists. split; [reflexivity|].
  intros H. specialize (H 0).
  assert (H0 : 0 <= 0 < Z.abs INT32_MIN) by (unfold INT32_MIN; cbn; lia).
  specialize (H H0). vm_compute in H. discriminate H.
Qed.

(** ** Reversibility *)






(** ** Homing *)

Lemma Step_shaft steps speed b :
  shaft (Step steps speed b) =
  shaft b + (if steps >? 0 then 1 else -1)
            * Z.of_nat (if steps =? 0 then O else Step_rounds steps).
Proof.
  destruct (Z.eqb_spec steps 0) as [->|Hnz].
  - rewrite Step_zero_eq. cbn [out_w1tc note_call shaft]. lia.
  - rewrite Step_nonzero by assumption.
    match goal with
    | |- context [for_upto ?n ?j (step_iteration ?sp ?st ?d ?a) ?b0] =>
        destruct (stepping_loop sp st d a n j b0) as (_ & _ & _ & _ & Hsh & _)
    end.
    exact Hsh.
Qed.

(** A single step in either direction, as the loops of [Home] make it. *)
Lemma Step_unit steps speed b :
  steps = STEP_CW \/ steps = STEP_CCW ->
  cfg (Step steps speed b) = cfg b /\
  home_reads (Step steps speed b) = home_reads b /\
  shaft (Step steps speed b) = shaft b + steps.
Proof.
  intros Hs. destruct (Step_frame steps speed b) as (Hc & Hr & _).
  repeat split; try assumption.
  rewrite Step_shaft. unfold STEP_CW, STEP_CCW in Hs.
  assert (Hcw : Step_rounds 1 = 1%nat) by (vm_compute; reflexivity).
  assert (Hccw : Step_rounds (-1) = 1%nat) by (vm_compute; reflexivity).
  destruct Hs as [-> | ->]; [rewrite Hcw | rewrite Hccw]; cbn [Z.eqb Z.gtb Z.compare]; lia.
Qed.

Section HomingFacts.

Variable home_pin_high : nat -> Z -> bool.

(** A loop of [Home] that meets [k] readings equal to [while_home] and then
    either a reading that differs or the end of its budget stops after
    [k] steps, having read the input [k + 1] times, the last event being
    the read that ended it. *)
Lemma home_loop_run while_home steps speed limit :
  steps = STEP_CW \/ steps = STEP_CCW ->
  forall (k fuel : nat) (i : Z) (b : GenericClockBoard),
    (k < fuel)%nat ->
    i + Z.of_nat k <= limit ->
    (forall j, (j < k)%nat ->
       home_active home_pin_high (m_InvertHome (cfg b)) (home_reads b + j)%nat
              (shaft b + steps * Z.of_nat j) = while_home) ->
    (i + Z.of_nat k = limit \/
     home_active home_pin_high (m_InvertHome (cfg b)) (home_reads b + k)%nat
            (shaft b + steps * Z.of_nat k) = negb while_home) ->
    exists b',
      home_loop home_pin_high while_home steps speed limit fuel i b
      = Some (i + Z.of_nat k, b') /\
      cfg b' = cfg b /\
      shaft b' = shaft b + steps * Z.of_nat k /\
      home_reads b' = (home_reads b + k + 1)%nat /\
      hd_error (log b') =
        Some (Ev_readHome (home_pin_high (home_reads b + k)%nat
                                         (shaft b + steps * Z.of_nat k))).
Proof.
  intros Hsteps. induction k as [|k IH]; intros fuel i b Hfuel Hlim Hpolls Hstop.
  - destruct fuel as [|fuel]; [lia|]. cbn [home_loop IsHome].
    replace (home_reads b + 0)%nat with (home_reads b) in * by lia.
    replace (shaft b + steps * Z.of_nat 0) with (shaft b) in * by lia.
    assert (Hcond : Bool.eqb (xorb (home_pin_high (home_reads b) (shaft b))
                                   (m_InvertHome (cfg b))) while_home
                    && (i <? limit) = false).
    { destruct Hstop as [Hend | Hdiff].
      - assert (Hlt : (i <? limit) = false) by (apply Z.ltb_ge; lia).
        rewrite Hlt. apply andb_false_r.
      - unfold home_active in Hdiff. rewrite Hdiff.
        destruct while_home; reflexivity. }
    rewrite Hcond. eexists. split; [f_equal; f_equal; lia|].
    cbn. repeat split; try reflexivity. lia.
  - destruct fuel as [|fuel]; [lia|]. cbn [home_loop IsHome].
    assert (Hcond : Bool.eqb (xorb (home_pin_high (home_reads b) (shaft b))
                                   (m_InvertHome (cfg b))) while_home
                    && (i <? limit) = true).
    { pose proof (Hpolls O ltac:(lia)) as H0.
      replace (home_reads b + 0)%nat with (home_reads b) in H0 by lia.
      replace (shaft b + steps * Z.of_nat 0) with (shaft b) in H0 by lia.
      unfold home_active in H0. rewrite H0.
      assert (Hlt : (i <? limit) = true) by (apply Z.ltb_lt; lia).
      rewrite Hlt. destruct while_home; reflexivity. }
    rewrite Hcond.
    match goal with
    | |- context [Step steps speed ?b1] =>
        destruct (Step_unit steps speed b1 Hsteps) as (Hc & Hr & Hsh);
        destruct (IH fuel (i + 1) (Step steps speed b1)) as (b' & Hrun & Hc' & Hsh' & Hr' & Hl')
    end.
    + lia.
    + lia.
    + intros j Hj. rewrite Hc, Hr, Hsh. cbn [cfg home_reads shaft].
      pose proof (Hpolls (S j) ltac:(lia)) as HS.
      replace (S (home_reads b) + j)%nat with (home_reads b + S j)%nat by lia.
      replace (shaft b + steps + steps * Z.of_nat j)
        with (shaft b + steps * Z.of_nat (S j)) by lia.
      exact HS.
    + rewrite Hc, Hr, Hsh. cbn [cfg home_reads shaft].
      replace (S (home_reads b) + k)%nat with (home_reads b + S k)%nat by lia.
      replace (shaft b + steps + steps * Z.of_nat k)
        with (shaft b + steps * Z.of_nat (S k)) by lia.
      destruct Hstop as [Hend | Hdiff]; [left; lia | right; exact Hdiff].
    + exists b'. rewrite Hrun, Hc', Hsh', Hr', Hl', Hc, Hr, Hsh.
      cbn [cfg home_reads shaft].
      replace (S (home_reads b) + k)%nat with (home_reads b + S k)%nat by lia.
      replace (shaft b + steps + steps * Z.of_nat k)
        with (shaft b + steps * Z.of_nat (S k)) by lia.
      replace (i + 1 + Z.of_nat k) with (i + Z.of_nat (S k)) by lia.
      repeat split; reflexivity || lia.
Qed.

(** With fuel above the distance to the limit the loop gives a result. *)
Lemma home_loop_total while_home steps speed limit :
  forall (fuel : nat) (i : Z) (b : GenericClockBoard),
    limit - i < Z.of_nat fuel -> (0 < fuel)%nat ->
    exists r, home_loop home_pin_high while_home steps speed limit fuel i b = Some r.
Proof.
  induction fuel as [|fuel IH]; intros i b Hfuel Hpos; [lia|].
  cbn [home_loop]. destruct (IsHome home_pin_high b) as [h b1].
  destruct (Bool.eqb h while_home && (i <? limit)) eqn:Hcond.
  - apply andb_prop in Hcond as [_ Hlt]. apply Z.ltb_lt in Hlt.
    apply IH; lia.
  - eexists. reflexivity.
Qed.

Lemma home_loop_total_from_zero while_home steps speed limit b :
  exists r, home_loop home_pin_high while_home steps speed limit
                      (loop_fuel limit) 0 b = Some r.
Proof. apply home_loop_total; unfold loop_fuel; lia. Qed.

(** [Home] always terminates with a status. *)
Lemma Home_total c : exists st c', Home home_pin_high c = Some (st, c').
Proof.
  unfold Home.
  destruct (home_loop_total_from_zero false STEP_CW StepFast
              (MAX_STEPS_of c) (board c)) as [r1 H1].
  rewrite H1. cbn [bind]. destruct (fst r1 >=? _); [eauto|].
  destruct (home_loop_total_from_zero true STEP_CCW StepFast
              (m_StepsPerHour c) (snd r1)) as [r2 H2].
  rewrite H2. cbn [bind]. destruct (fst r2 >=? _); [eauto|].
  destruct (home_loop_total_from_zero false STEP_CW StepSlow
              (m_StepsPerHour c) (snd r2)) as [r3 H3].
  rewrite H3. cbn [bind]. destruct (fst r3 >=? _); eauto.
Qed.

(** C10.  [Home] returns a status; when it is one of the three failures,
    [m_LastStepperPos] and [m_LastMinutes] are as they were on entry, and
    they are set to zero on the StatusSuccess path. *)
Theorem Home_failure_keeps_position c :
  exists st c',
    Home home_pin_high c = Some (st, c') /\
    (st <> StatusSuccess ->
     m_LastStepperPos c' = m_LastStepperPos c /\
     m_LastMinutes c' = m_LastMinutes c) /\
    (st = StatusSuccess ->
     m_LastStepperPos c' = 0 /\ m_LastMinutes c' = 0).
Proof.
  unfold Home.
  destruct (home_loop_total_from_zero false STEP_CW StepFast
              (MAX_STEPS_of c) (board c)) as [r1 H1].
  rewrite H1. cbn [bind].
  destruct (fst r1 >=? _);
    [do 2 eexists; split; [reflexivity|]; split;
     [intros _; split; reflexivity | discriminate]|].
  destruct (home_loop_total_from_zero true STEP_CCW StepFast
              (m_StepsPerHour c) (snd r1)) as [r2 H2].
  rewrite H2. cbn [bind].
  destruct (fst r2 >=? _);
    [do 2 eexists; split; [reflexivity|]; split;
     [intros _; split; reflexivity | discriminate]|].
  destruct (home_loop_total_from_zero false STEP_CW StepSlow
              (m_StepsPerHour c) (snd r2)) as [r3 H3].
  rewrite H3. cbn [bind].
  destruct (fst r3 >=? _);
    [do 2 eexists; split; [reflexivity|]; split;
     [intros _; split; reflexivity | discriminate]|].
  do 2 eexists. split; [reflexivity|]. split.
  - intros Hne. contradiction Hne. reflexivity.
  - intros _. split; reflexivity.
Qed.

(** Nothing but the base-class part and, on success, the two position
    fields is written by [Home]. *)
Lemma Home_keeps_steps c st c' :
  Home home_pin_high c = Some (st, c') ->
  m_StepsPerCycle c' = m_StepsPerCycle c /\
  m_StepsPerHour c' = m_StepsPerHour c.
Proof.
  unfold Home.
  destruct (home_loop _ false _ _ _ _ _ _) as [r1|]; [|discriminate].
  cbn [bind]. destruct (fst r1 >=? _);
    [intros H; injection H as <- <-; split; reflexivity|].
  destruct (home_loop _ true _ _ _ _ _ _) as [r2|]; [|discriminate].
  cbn [bind]. destruct (fst r2 >=? _);
    [intros H; injection H as <- <-; split; reflexivity|].
  destruct (home_loop _ false _ _ _ _ _ _) as [r3|]; [|discriminate].
  cbn [bind]. destruct (fst r3 >=? _);
    intros H; injection H as <- <-; split; reflexivity.
Qed.

(** Phase 1 with every budgeted reading inactive: the whole budget is
    stepped, the input is read once more, and the error is returned
    whatever that last reading is. *)
Lemma Home_phase1_exhausted c :
  (forall j, Z.of_nat j < MAX_STEPS_of c ->
     home_active home_pin_high (m_InvertHome (cfg (board c))) (home_reads (board c) + j)%nat
            (shaft (board c) + Z.of_nat j) = false) ->
  exists c',
    Home home_pin_high c = Some (StatusHomePhase1Error, c') /\
    shaft (board c') = shaft (board c) + MAX_STEPS_of c /\
    Z.of_nat (home_reads (board c')) =
      Z.of_nat (home_reads (board c)) + MAX_STEPS_of c + 1 /\
    hd_error (log (board c')) =
      Some (Ev_readHome
              (home_pin_high (home_reads (board c) + Z.to_nat (MAX_STEPS_of c))%nat
                             (shaft (board c) + MAX_STEPS_of c))).
Proof.
  intros Hpolls.
  assert (Hmax : 0 <= MAX_STEPS_of c)
    by (unfold MAX_STEPS_of, to_uint32; apply Z.mod_pos_bound; lia).
  destruct (home_loop_run false STEP_CW StepFast (MAX_STEPS_of c)
              (or_introl eq_refl) (Z.to_nat (MAX_STEPS_of c))
              (loop_fuel (MAX_STEPS_of c)) 0 (board c))
    as (b' & Hrun & Hc & Hsh & Hr & Hl).
  - unfold loop_fuel. lia.
  - lia.
  - intros j Hj. unfold STEP_CW. rewrite Z.mul_1_l. apply Hpolls. lia.
  - left. lia.
  - unfold Home. cbv zeta. rewrite Hrun. cbn [bind fst snd].
    assert (Hge : (0 + Z.of_nat (Z.to_nat (MAX_STEPS_of c)) >=? MAX_STEPS_of c) = true)
      by (apply Z.geb_le; lia).
    rewrite Hge. eexists. split; [reflexivity|].
    cbn [set_board board]. rewrite Hsh, Hr, Hl. unfold STEP_CW.
    rewrite Z.mul_1_l, Z2Nat.id by assumption.
    repeat split; reflexivity || lia.
Qed.

Lemma first_active (P : nat -> bool) (n : nat) :
  (forall j, (j < n)%nat -> P j = false) \/
  (exists k, (k < n)%nat /\ P k = true /\ forall j, (j < k)%nat -> P j = false).
Proof.
  induction n as [|n [IH | (k & Hk & Hpk & Hbefore)]].
  - left. intros j Hj. lia.
  - destruct (P n) eqn:Hn.
    + right. exists n. auto.
    + left. intros j Hj. destruct (Nat.eq_dec j n) as [->|]; [assumption|].
      apply IH. lia.
  - right. exists k. split; [lia|]. auto.
Qed.

(** What the code does: StatusHomePhase1Error is returned exactly when the
    readings taken before each of the [MAX_STEPS] steps are all inactive.
    The reading taken after the last step is made but not looked at. *)
Lemma Home_phase1_error_iff c :
  (exists c', Home home_pin_high c = Some (StatusHomePhase1Error, c')) <->
  (forall j, Z.of_nat j < MAX_STEPS_of c ->
     home_active home_pin_high (m_InvertHome (cfg (board c))) (home_reads (board c) + j)%nat
            (shaft (board c) + Z.of_nat j) = false).
Proof.
  split.
  - intros (c' & Hhome).
    assert (Hmax : 0 <= MAX_STEPS_of c)
      by (unfold MAX_STEPS_of, to_uint32; apply Z.mod_pos_bound; lia).
    destruct (first_active
                (fun j => home_active home_pin_high (m_InvertHome (cfg (board c)))
                                 (home_reads (board c) + j)%nat
                                 (shaft (board c) + Z.of_nat j))
                (Z.to_nat (MAX_STEPS_of c)))
      as [Hall | (k & Hk & Hpk & Hbefore)].
    + intros j Hj. apply Hall. lia.
    + exfalso.
      destruct (home_loop_run false STEP_CW StepFast (MAX_STEPS_of c)
                  (or_introl eq_refl) k (loop_fuel (MAX_STEPS_of c)) 0 (board c))
        as (b' & Hrun & _).
      * unfold loop_fuel. lia.
      * lia.
      * intros j Hj. unfold STEP_CW. rewrite Z.mul_1_l. apply Hbefore, Hj.
      * right. unfold STEP_CW. rewrite Z.mul_1_l. exact Hpk.
      * unfold Home in Hhome. cbv zeta in Hhome. rewrite Hrun in Hhome.
        cbn [bind fst snd] in Hhome.
        assert (Hlt : (0 + Z.of_nat k >=? MAX_STEPS_of c) = false)
          by (rewrite Z.geb_leb; apply Z.leb_gt; lia).
        rewrite Hlt in Hhome.
        destruct (home_loop _ true _ _ _ _ _ _) as [r2|]; [|discriminate].
        cbn [bind] in Hhome. destruct (fst r2 >=? _); [discriminate|].
        destruct (home_loop _ false _ _ _ _ _ _) as [r3|]; [|discriminate].
        cbn [bind] in Hhome. destruct (fst r3 >=? _); discriminate.
  - intros Hpolls.
    destruct (Home_phase1_exhausted c Hpolls) as (c' & Hhome & _).
    exists c'. exact Hhome.
Qed.

(** A homing run that succeeds.  The sensor is a function of the shaft
    position alone; [q] is where phase 1 finds it (the first active
    position at or after the start, fewer than [MAX_STEPS] steps away) and
    [lo] is the counter-clockwise end of the active range around [q],
    left in fewer than [m_StepsPerHour] steps. *)
Lemma Home_success_run c q lo :
  let inv := m_InvertHome (cfg (board c)) in
  let s := shaft (board c) in
  (forall r1 r2 p, home_pin_high r1 p = home_pin_high r2 p) ->
  s <= q -> q - s < MAX_STEPS_of c ->
  lo <= q -> q - lo + 1 < m_StepsPerHour c ->
  (forall p, s <= p < q -> home_active home_pin_high inv O p = false) ->
  (forall p, lo <= p <= q -> home_active home_pin_high inv O p = true) ->
  home_active home_pin_high inv O (lo - 1) = false ->
  exists c',
    Home home_pin_high c = Some (StatusSuccess, c') /\
    m_LastStepperPos c' = 0 /\ m_LastMinutes c' = 0 /\
    shaft (board c') = lo /\ cfg (board c') = cfg (board c).
Proof.
  intros inv s Hpos Hsq Hbudget Hlo Hwidth Hbefore Hzone Hedge.
  assert (Hany : forall r p, home_active home_pin_high inv r p = home_active home_pin_high inv O p).
  { intros r p. unfold home_active. rewrite (Hpos r O p). reflexivity. }
  (* phase 1 *)
  destruct (home_loop_run false STEP_CW StepFast (MAX_STEPS_of c)
              (or_introl eq_refl) (Z.to_nat (q - s))
              (loop_fuel (MAX_STEPS_of c)) 0 (board c))
    as (b1 & Hrun1 & Hc1 & Hsh1 & _).
  { unfold loop_fuel. lia. }
  { lia. }
  { intros j Hj. fold inv. rewrite Hany. apply Hbefore. unfold STEP_CW. fold s. lia. }
  { right. fold inv. rewrite Hany. cbn [negb]. apply Hzone. unfold STEP_CW. fold s. lia. }
  assert (Hq : shaft b1 = q) by (rewrite Hsh1; unfold STEP_CW; fold s; lia).
  (* phase 2 *)
  destruct (home_loop_run true STEP_CCW StepFast (m_StepsPerHour c)
              (or_intror eq_refl) (Z.to_nat (q - lo + 1))
              (loop_fuel (m_StepsPerHour c)) 0 b1)
    as (b2 & Hrun2 & Hc2 & Hsh2 & _).
  { unfold loop_fuel. lia. }
  { lia. }
  { intros j Hj. rewrite Hc1. fold inv. rewrite Hany, Hq. apply Hzone.
    unfold STEP_CCW. lia. }
  { right. rewrite Hc1. fold inv. rewrite Hany, Hq. cbn [negb].
    replace (q + STEP_CCW * Z.of_nat (Z.to_nat (q - lo + 1))) with (lo - 1)
      by (unfold STEP_CCW; lia).
    exact Hedge. }
  assert (Hlo1 : shaft b2 = lo - 1)
    by (rewrite Hsh2, Hq; unfold STEP_CCW; lia).
  (* phase 3 *)
  destruct (home_loop_run false STEP_CW StepSlow (m_StepsPerHour c)
              (or_introl eq_refl) 1%nat
              (loop_fuel (m_StepsPerHour c)) 0 b2)
    as (b3 & Hrun3 & Hc3 & Hsh3 & _).
  { unfold loop_fuel. lia. }
  { lia. }
  { intros j Hj. assert (j = O) by lia. subst j.
    rewrite Hc2, Hc1. fold inv. rewrite Hany, Hlo1.
    replace (lo - 1 + STEP_CW * Z.of_nat 0) with (lo - 1) by lia.
    exact Hedge. }
  { right. rewrite Hc2, Hc1. fold inv. rewrite Hany, Hlo1. cbn [negb].
    apply Hzone. unfold STEP_CW. lia. }
  unfold Home. cbv zeta. rewrite Hrun1. cbn [bind fst snd].
  assert (H1 : (0 + Z.of_nat (Z.to_nat (q - s)) >=? MAX_STEPS_of c) = false)
    by (rewrite Z.geb_leb; apply Z.leb_gt; lia).
  rewrite H1, Hrun2. cbn [bind fst snd].
  assert (H2 : (0 + Z.of_nat (Z.to_nat (q - lo + 1)) >=? m_StepsPerHour c) = false)
    by (rewrite Z.geb_leb; apply Z.leb_gt; lia).
  rewrite H2, Hrun3. cbn [bind fst snd].
  assert (H3 : (0 + Z.of_nat 1 >=? m_StepsPerHour c) = false)
    by (rewrite Z.geb_leb; apply Z.leb_gt; lia).
  rewrite H3. eexists. split; [reflexivity|].
  cbn [m_LastStepperPos m_LastMinutes board].
  rewrite Hsh3, Hlo1, Hc3, Hc2, Hc1. unfold STEP_CW.
  repeat split; reflexivity || lia.
Qed.

End HomingFacts.

Lemma standard_clock_built :
  exists c,
    standard_clock = Some c /\
    m_StepsPerCycle c = 65536 /\ m_StepsPerHour c = 5461 /\
    MAX_STEPS_of c = 70997 /\
    m_LastStepperPos c = 0 /\ m_LastMinutes c = 0 /\
    shaft (board c) = 0 /\ home_reads (board c) = O /\
    m_InvertHome (cfg (board c)) = true /\ step_calls (board c) = [].
Proof. eexists. repeat split; reflexivity. Qed.

Lemma sensor_low_on_active lo hi r p :
  home_active (sensor_low_on lo hi) true r p = (lo <=? p) && (p <=? hi).
Proof.
  unfold home_active, sensor_low_on.
  destruct ((lo <=? p) && (p <=? hi)); reflexivity.
Qed.

(** C3, amended.  Whatever the phase index at the start, for a home sensor
    that depends on the shaft position alone, that is first active at a
    position [q] fewer than [MAX_STEPS] clockwise steps from the start, and
    whose active range around [q] is left counter-clockwise in fewer than
    [m_StepsPerHour] steps (it ends at [lo], with [lo - 1] inactive),
    [Home] returns StatusSuccess with [m_LastStepperPos] and
    [m_LastMinutes] both 0. *)
Theorem Home_succeeds_on_narrow_sensor home_pin_high c q lo :
  (forall r1 r2 p, home_pin_high r1 p = home_pin_high r2 p) ->
  shaft (board c) <= q -> q - shaft (board c) < MAX_STEPS_of c ->
  lo <= q -> q - lo + 1 < m_StepsPerHour c ->
  (forall p, shaft (board c) <= p < q ->
     home_active home_pin_high (m_InvertHome (cfg (board c))) O p = false) ->
  (forall p, lo <= p <= q ->
     home_active home_pin_high (m_InvertHome (cfg (board c))) O p = true) ->
  home_active home_pin_high (m_InvertHome (cfg (board c))) O (lo - 1) = false ->
  Home_succeeds home_pin_high c.
Proof.
  intros Hpos Hsq Hbudget Hlo Hwidth Hbefore Hzone Hedge.
  destruct (Home_success_run home_pin_high c q lo
              Hpos Hsq Hbudget Hlo Hwidth Hbefore Hzone Hedge)
    as (c' & Hhome & Hp & Hm & _).
  exists c'. auto.
Qed.

Lemma Home_succeeds_on_narrow_sensor_witness :
  exists c,
    standard_clock = Some c /\
    (forall r1 r2 p, sensor_low_on 3 5 r1 p = sensor_low_on 3 5 r2 p) /\
    shaft (board c) <= 3 /\ 3 - shaft (board c) < MAX_STEPS_of c /\
    3 <= 3 /\ 3 - 3 + 1 < m_StepsPerHour c /\
    (forall p, shaft (board c) <= p < 3 ->
       home_active (sensor_low_on 3 5) (m_InvertHome (cfg (board c))) O p = false) /\
    (forall p, 3 <= p <= 3 ->
       home_active (sensor_low_on 3 5) (m_InvertHome (cfg (board c))) O p = true) /\
    home_active (sensor_low_on 3 5) (m_InvertHome (cfg (board c))) O (3 - 1) = false /\
    Home_succeeds (sensor_low_on 3 5) c.
Proof.
  eexists. split; [reflexivity|].
  match goal with
  | |- ?A /\ ?B /\ ?C /\ ?D /\ ?E /\ ?F /\ ?G /\ ?H /\ _ =>
      assert (Ha : A) by reflexivity;
      assert (Hb : B) by (cbn [shaft board]; lia);
      assert (Hc : C) by (vm_compute; reflexivity);
      assert (Hd : D) by lia;
      assert (He : E) by (vm_compute; reflexivity);
      assert (Hf : F)
        by (intros p Hp; cbn [shaft board] in Hp;
            change (home_active (sensor_low_on 3 5) true O p = false);
            rewrite sensor_low_on_active;
            destruct (Z.leb_spec 3 p); [lia | reflexivity]);
      assert (Hg : G)
        by (intros p Hp;
            change (home_active (sensor_low_on 3 5) true O p = true);
            rewrite sensor_low_on_active;
            destruct (Z.leb_spec 3 p); destruct (Z.leb_spec p 5);
            reflexivity || lia);
      assert (Hh : H) by reflexivity
  end.
  repeat (split; [assumption|]).
  exact (Home_succeeds_on_narrow_sensor _ _ 3 3 Ha Hb Hc Hd He Hf Hg Hh).
Defined.

(** Where the statement as written fails: the sensor is active on the step
    range -6000 .. 0, the clock starts on it (so it is reached within the
    phase-1 budget, after no step at all), and [Home] gives up in phase 2
    because the range is wider than [m_StepsPerHour] = 5461 steps. *)
Lemma Home_fails_on_wide_sensor :
  exists c,
    standard_clock = Some c /\
    home_active (sensor_low_on (-6000) 0) (m_InvertHome (cfg (board c)))
                (home_reads (board c)) (shaft (board c)) = true /\
    option_map fst (Home (sensor_low_on (-6000) 0) c) = Some StatusHomePhase2Error /\
    ~ Home_succeeds (sensor_low_on (-6000) 0) c.
Proof.
  eexists. split; [reflexivity|]. split; [reflexivity|].
  match goal with
  | |- ?A /\ _ => assert (Hst : A) by (vm_compute; reflexivity)
  end.
  split; [exact Hst|].
  intros (c' & Hhome & _). rewrite Hhome in Hst. discriminate Hst.
Qed.

(** C4, the code at the failing input.  The home input becomes active with
    the last step of the phase-1 budget (the shaft at 70997 = MAX_STEPS).
    [Home] steps the whole budget, reads the input a last time, the read
    being LOW, which is "active" for the normally open switch, and returns
    StatusHomePhase1Error all the same. *)
Theorem Home_phase1_error_after_active_read :
  exists c,
    standard_clock = Some c /\ MAX_STEPS_of c = 70997 /\
    home_active (sensor_low_on 70997 70997) (m_InvertHome (cfg (board c)))
                (Z.to_nat 70997) (shaft (board c) + 70997) = true /\
    exists c',
      Home (sensor_low_on 70997 70997) c = Some (StatusHomePhase1Error, c') /\
      shaft (board c') = 70997 /\
      Z.of_nat (home_reads (board c')) = 70998 /\
      hd_error (log (board c')) = Some (Ev_readHome false).
Proof.
  destruct standard_clock_built
    as (c & Hc & _ & _ & Hmax & _ & _ & Hsh & Hr & Hinv & _).
  exists c. split; [exact Hc|]. split; [exact Hmax|].
  split; [rewrite Hinv, Hsh, sensor_low_on_active; reflexivity|].
  destruct (Home_phase1_exhausted (sensor_low_on 70997 70997) c)
    as (c' & Hhome & Hsh' & Hr' & Hl').
  - intros j Hj. rewrite Hinv, Hsh, sensor_low_on_active.
    rewrite Hmax in Hj. destruct (Z.leb_spec 70997 (0 + Z.of_nat j)); [lia|].
    reflexivity.
  - exists c'. split; [exact Hhome|].
    rewrite Hsh', Hr', Hl', Hsh, Hr, Hmax.
    repeat split; reflexivity.
Qed.

(** ** Time updates *)

Lemma UpdateClock_unchanged t c :
  newTimeInMinutes t = m_LastMinutes c -> UpdateClock t c = Some c.
Proof.
  intros H. unfold UpdateClock. apply Z.eqb_eq in H. rewrite H. reflexivity.
Qed.

Lemma UpdateClock_moves t c :
  newTimeInMinutes t <> m_LastMinutes c -> m_StepsPerCycle c <> 0 ->
  exists c',
    UpdateClock t c = Some c' /\
    step_calls (board c') =
      (deltaSteps_of c (newTimeInMinutes t), StepAuto) :: step_calls (board c) /\
    m_LastStepperPos c' =
      to_int32 (Z.rem (to_int32 (m_LastStepperPos c
                                 + deltaSteps_of c (newTimeInMinutes t)))
                      (m_StepsPerCycle c)) /\
    m_LastMinutes c' = newTimeInMinutes t /\
    m_StepsPerCycle c' = m_StepsPerCycle c /\
    m_StepsPerHour c' = m_StepsPerHour c.
Proof.
  intros Ht Hspc. unfold UpdateClock.
  apply Z.eqb_neq in Ht. apply Z.eqb_neq in Hspc. rewrite Ht, Hspc.
  eexists. split; [reflexivity|].
  cbn [board m_LastStepperPos m_LastMinutes m_StepsPerCycle m_StepsPerHour].
  destruct (Step_frame (deltaSteps_of c (newTimeInMinutes t)) StepAuto (board c))
    as (_ & _ & Hcalls).
  rewrite Hcalls. repeat split; reflexivity.
Qed.

(** With the last position inside the cycle the adjusted delta is at most
    half a cycle; nothing keeps the stored position there (see below). *)
Lemma normalize_delta_half spc new last :
  0 < spc <= INT32_MAX -> 0 <= new < spc -> 0 <= last < spc ->
  Z.abs (normalize_delta spc (to_int32 (new - last))) <= Z.quot spc 2.
Proof.
  unfold INT32_MAX. intros Hspc Hnew Hlast. unfold normalize_delta.
  rewrite (to_int32_small (new - last))
    by (unfold in_int32, INT32_MIN, INT32_MAX; lia).
  rewrite (to_int32_small (- spc))
    by (unfold in_int32, INT32_MIN, INT32_MAX; lia).
  rewrite Z.quot_opp_l by lia.
  pose proof (Z.quot_div_nonneg spc 2 ltac:(lia) ltac:(lia)) as Hq.
  rewrite Hq. pose proof (Z.div_mod spc 2 ltac:(lia)) as Hdm.
  pose proof (Z.mod_pos_bound spc 2 ltac:(lia)) as Hm.
  destruct (Z.gtb_spec (new - last) (spc / 2)).
  - rewrite to_int32_small by (unfold in_int32, INT32_MIN, INT32_MAX; lia). lia.
  - destruct (Z.ltb_spec (new - last) (- (spc / 2))).
    + rewrite to_int32_small by (unfold in_int32, INT32_MIN, INT32_MAX; lia). lia.
    + lia.
Qed.

Ltac compute_rhs H :=
  match type of H with
  | ?l = ?r => let r' := eval vm_compute in r in change (l = r') in H
  end.

Definition at_06_01 : tm := {| tm_hour := 6; tm_min := 1 |}.
Definition at_00_02 : tm := {| tm_hour := 0; tm_min := 2 |}.
Definition at_11_59 : tm := {| tm_hour := 11; tm_min := 59 |}.
Definition at_00_00 : tm := {| tm_hour := 0; tm_min := 0 |}.
Definition at_06_00 : tm := {| tm_hour := 6; tm_min := 0 |}.

(** The state right after a successful [Home] of the standard clock, the
    home switch closing on the shaft positions 3 .. 5. *)
Lemma standard_clock_homed :
  exists c0 c1,
    standard_clock = Some c0 /\
    Home (sensor_low_on 3 5) c0 = Some (StatusSuccess, c1) /\
    m_LastStepperPos c1 = 0 /\ m_LastMinutes c1 = 0 /\
    m_StepsPerCycle c1 = 65536.
Proof.
  destruct standard_clock_built
    as (c0 & Hc & Hspc & Hsph & Hmax & _ & _ & Hsh & Hr & Hinv & _).
  destruct (Home_success_run (sensor_low_on 3 5) c0 3 3)
    as (c1 & Hhome & Hp & Hm & _).
  - reflexivity.
  - lia.
  - lia.
  - lia.
  - lia.
  - intros p Hp. rewrite Hinv, sensor_low_on_active.
    destruct (Z.leb_spec 3 p); [lia | reflexivity].
  - intros p Hp. rewrite Hinv, sensor_low_on_active.
    destruct (Z.leb_spec 3 p); destruct (Z.leb_spec p 5); reflexivity || lia.
  - rewrite Hinv. reflexivity.
  - exists c0, c1. destruct (Home_keeps_steps _ _ _ _ Hhome) as [Hspc1 _].
    rewrite Hspc1, Hspc. auto.
Qed.

(** C1, the code at the failing input.  After a successful [Home], the
    updates for 06:01, 00:02 and 11:59 call [Step] with -32677, -32677 and
    then 65262 steps: the last count is more than half the cycle of 65536
    steps (the near way round is 274 steps back). *)
Theorem UpdateClock_goes_the_long_way :
  exists c0 c1 c4,
    standard_clock = Some c0 /\
    Home (sensor_low_on 3 5) c0 = Some (StatusSuccess, c1) /\
    UpdateClock_all [at_06_01; at_00_02; at_11_59] c1 = Some c4 /\
    step_calls (board c4) =
      (65262, StepAuto) :: (-32677, StepAuto) :: (-32677, StepAuto)
      :: step_calls (board c1) /\
    m_StepsPerCycle c4 = 65536 /\
    Z.quot (m_StepsPerCycle c4) 2 < Z.abs 65262.
Proof.
  destruct standard_clock_homed as (c0 & c1 & Hc0 & Hhome & Hp1 & Hm1 & Hspc1).
  destruct (UpdateClock_moves at_06_01 c1) as (c2 & Hu2 & Hcalls2 & Hp2 & Hm2 & Hspc2 & _);
    [rewrite Hm1; vm_compute; discriminate | rewrite Hspc1; discriminate |].
  unfold deltaSteps_of in Hcalls2, Hp2. rewrite Hp1, Hspc1 in Hcalls2, Hp2.
  rewrite Hspc1 in Hspc2. compute_rhs Hp2. compute_rhs Hm2.
  destruct (UpdateClock_moves at_00_02 c2) as (c3 & Hu3 & Hcalls3 & Hp3 & Hm3 & Hspc3 & _);
    [rewrite Hm2; vm_compute; discriminate | rewrite Hspc2; discriminate |].
  unfold deltaSteps_of in Hcalls3, Hp3. rewrite Hp2, Hspc2 in Hcalls3, Hp3.
  rewrite Hspc2 in Hspc3. compute_rhs Hp3. compute_rhs Hm3.
  destruct (UpdateClock_moves at_11_59 c3) as (c4 & Hu4 & Hcalls4 & Hp4 & Hm4 & Hspc4 & _);
    [rewrite Hm3; vm_compute; discriminate | rewrite Hspc3; discriminate |].
  unfold deltaSteps_of in Hcalls4. rewrite Hp3, Hspc3 in Hcalls4.
  rewrite Hspc3 in Hspc4.
  exists c0, c1, c4. split; [exact Hc0|]. split; [exact Hhome|].
  split; [cbn [UpdateClock_all]; rewrite Hu2; cbn [bind]; rewrite Hu3; cbn [bind];
          rewrite Hu4; reflexivity|].
  split; [rewrite Hcalls4, Hcalls3, Hcalls2; reflexivity|].
  split; [exact Hspc4|]. rewrite Hspc4. reflexivity.
Qed.

(** C2, the code at the failing input.  After a successful [Home], the
    update for 11:59 moves 92 steps back and stores -92 as
    [m_LastStepperPos], outside 0 .. m_StepsPerCycle - 1. *)
Theorem UpdateClock_stores_negative_position :
  exists c0 c1 c2,
    standard_clock = Some c0 /\
    Home (sensor_low_on 3 5) c0 = Some (StatusSuccess, c1) /\
    UpdateClock at_11_59 c1 = Some c2 /\
    step_calls (board c2) = (-92, StepAuto) :: step_calls (board c1) /\
    m_LastStepperPos c2 = -92 /\
    m_StepsPerCycle c2 = 65536 /\
    ~ (0 <= m_LastStepperPos c2 <= m_StepsPerCycle c2 - 1).
Proof.
  destruct standard_clock_homed as (c0 & c1 & Hc0 & Hhome & Hp1 & Hm1 & Hspc1).
  destruct (UpdateClock_moves at_11_59 c1) as (c2 & Hu2 & Hcalls2 & Hp2 & Hm2 & Hspc2 & _);
    [rewrite Hm1; vm_compute; discriminate | rewrite Hspc1; discriminate |].
  unfold deltaSteps_of in Hcalls2, Hp2. rewrite Hp1, Hspc1 in Hcalls2, Hp2.
  rewrite Hspc1 in Hspc2. compute_rhs Hp2.
  exists c0, c1, c2. split; [exact Hc0|]. split; [exact Hhome|].
  split; [exact Hu2|]. split; [rewrite Hcalls2; reflexivity|].
  split; [exact Hp2|]. split; [exact Hspc2|].
  rewrite Hp2, Hspc2. lia.
Qed.

(** C9.  With 2048 full steps per revolution, half-stepping, GEAR_RATIO 4,
    HOURS_PER_REV 3 and HOURS_PER_CYCLE 12: the steps per cycle are 65536 =
    4096 * GEAR_RATIO * (HOURS_PER_CYCLE / HOURS_PER_REV) with no remainder
    anywhere; the target for 00:00 is 0 and for 06:00 it is 32768, half of
    that; and the updates for 00:00 and then 06:01 on the new clock make one
    call of [Step], with the target for 06:01 less 0, adjusted for the
    shortest way: -32677 steps. *)
Theorem standard_clock_example :
  exists c c2,
    standard_clock = Some c /\
    m_StepsPerCycle c = 4096 * GEAR_RATIO * (HOURS_PER_CYCLE / HOURS_PER_REV) /\
    m_StepsPerCycle c = 65536 /\
    HOURS_PER_CYCLE mod HOURS_PER_REV = 0 /\
    m_StepsPerCycle c * HOURS_PER_REV = 4096 * GEAR_RATIO * HOURS_PER_CYCLE /\
    newMotorPos (m_StepsPerCycle c) (newTimeInMinutes at_00_00) = 0 /\
    newMotorPos (m_StepsPerCycle c) (newTimeInMinutes at_06_00) * 2
      = m_StepsPerCycle c /\
    UpdateClock_all [at_00_00; at_06_01] c = Some c2 /\
    step_calls (board c2) =
      [(normalize_delta (m_StepsPerCycle c)
          (newMotorPos (m_StepsPerCycle c) (newTimeInMinutes at_06_01) - 0),
        StepAuto)] /\
    newMotorPos (m_StepsPerCycle c) (newTimeInMinutes at_06_01) = 32859 /\
    normalize_delta (m_StepsPerCycle c) (32859 - 0) = -32677.
Proof.
  destruct standard_clock_built
    as (c & Hc & Hspc & _ & _ & Hp & Hm & _ & _ & _ & Hcalls).
  pose proof (UpdateClock_unchanged at_00_00 c) as Hu1.
  rewrite Hm in Hu1. specialize (Hu1 eq_refl).
  destruct (UpdateClock_moves at_06_01 c) as (c2 & Hu2 & Hcalls2 & _);
    [rewrite Hm; vm_compute; discriminate | rewrite Hspc; discriminate |].
  unfold deltaSteps_of in Hcalls2. rewrite Hp, Hspc, Hcalls in Hcalls2.
  exists c, c2. rewrite Hspc.
  split; [exact Hc|].
  repeat (split; [reflexivity|]).
  split; [cbn [UpdateClock_all]; rewrite Hu1; cbn [bind]; rewrite Hu2; reflexivity|].
  split; [rewrite Hcalls2; reflexivity|].
  split; reflexivity.
Qed.

(** * Further properties of the driver *)

(** The microseconds waited in a run of events. *)
Fixpoint total_delay (evs : list hw_event) : Z :=
  match evs with
  | [] => 0
  | Ev_delayMicroseconds us :: rest => us + total_delay rest
  | _ :: rest => total_delay rest
  end.

(** No stepper output is asserted. *)
Definition pins_off (b : GenericClockBoard) : Prop :=
  forall pin, In pin (m_pStepperPins (cfg b)) -> Z.testbit (gpio_out b) pin = false.

(** The rapid-delay units of [n] rounds of a StepAuto move from round [j]. *)
Fixpoint auto_units (absSteps : Z) (n : nat) (j : Z) : Z :=
  match n with
  | O => 0
  | S n' => 1 + auto_conditions_met absSteps j + auto_units absSteps n' (j + 1)
  end.

(** ** The tables the constructor builds *)

Lemma constructed_tables b :
  constructed b ->
  m_StepperClearMask (cfg b) = 2818048 /\
  ((m_pStepperPins (cfg b) = StepperPins /\ m_NumStepperPhases (cfg b) = 8 /\
    m_StepperSequence (cfg b) =
      [524288; 589824; 65536; 196608; 131072; 2228224; 2097152; 2621440]) \/
   (m_pStepperPins (cfg b) = StepperPins /\ m_NumStepperPhases (cfg b) = 4 /\
    m_StepperSequence (cfg b) = [524288; 65536; 131072; 2097152; 0; 0; 0; 0]) \/
   (m_pStepperPins (cfg b) = StepperPinsReversed /\ m_NumStepperPhases (cfg b) = 8 /\
    m_StepperSequence (cfg b) =
      [2097152; 2228224; 131072; 196608; 65536; 589824; 524288; 2621440]) \/
   (m_pStepperPins (cfg b) = StepperPinsReversed /\ m_NumStepperPhases (cfg b) = 4 /\
    m_StepperSequence (cfg b) = [2097152; 131072; 65536; 524288; 0; 0; 0; 0])).
Proof.
  intros (rapid & full & reversed & half & no & b0 & Hc & Hcfg).
  unfold GenericClockBoard_ctor in Hc.
  destruct (to_uint32 (full * (if half then 2 else 1)) =? 0); [discriminate|].
  injection Hc as <-. rewrite Hcfg.
  cbn [cfg m_StepperClearMask m_pStepperPins m_NumStepperPhases m_StepperSequence].
  split; [destruct reversed; reflexivity|].
  destruct reversed, half.
  - right. right. left. repeat split; reflexivity.
  - right. right. right. repeat split; reflexivity.
  - left. repeat split; reflexivity.
  - right. left. repeat split; reflexivity.
Qed.

Ltac pick_pin :=
  first [ exists 19; split; [cbn; tauto | reflexivity]
        | exists 16; split; [cbn; tauto | reflexivity]
        | exists 17; split; [cbn; tauto | reflexivity]
        | exists 21; split; [cbn; tauto | reflexivity] ].

(** X1.  In the table of a half-stepping driver, each pattern and the next
    one (the last and the first included) differ in exactly one stepper
    pin. *)
Theorem half_step_changes_one_pin b (k : nat) :
  constructed b -> m_NumStepperPhases (cfg b) = 8 -> (k < 8)%nat ->
  exists pin,
    In pin (m_pStepperPins (cfg b)) /\
    Z.lxor (nth k (m_StepperSequence (cfg b)) 0)
           (nth ((k + 1) mod 8) (m_StepperSequence (cfg b)) 0)
    = Z.shiftl 1 pin.
Proof.
  intros Hb HN Hk.
  destruct (constructed_tables b Hb)
    as (_ & [(Hp & _ & Hs) | [(_ & H4 & _) | [(Hp & _ & Hs) | (_ & H4 & _)]]]);
    try lia; rewrite Hp, Hs;
    do 8 (destruct k as [|k]; [pick_pin|]); lia.
Qed.

Lemma half_step_changes_one_pin_witness :
  exists b, GenericClockBoard_ctor 8 2048 false true true = Some b /\
            constructed b /\ m_NumStepperPhases (cfg b) = 8 /\ (7 < 8)%nat /\
            exists pin,
              In pin (m_pStepperPins (cfg b)) /\
              Z.lxor (nth 7 (m_StepperSequence (cfg b)) 0)
                     (nth ((7 + 1) mod 8) (m_StepperSequence (cfg b)) 0)
              = Z.shiftl 1 pin.
Proof.
  eexists. split; [reflexivity|].
  match goal with
  | |- constructed ?b /\ _ =>
      assert (Hc : constructed b)
        by (exists 8, 2048, false, true, true, b; split; reflexivity)
  end.
  assert (Hk : (7 < 8)%nat) by lia.
  split; [exact Hc|]. split; [reflexivity|]. split; [exact Hk|].
  exact (half_step_changes_one_pin _ 7 Hc eq_refl Hk).
Defined.

(** X2.  The patterns a driver steps through are pairwise different: the
    phase index can be read back from the outputs. *)
Theorem phase_patterns_distinct b :
  constructed b ->
  NoDup (firstn (Z.to_nat (m_NumStepperPhases (cfg b))) (m_StepperSequence (cfg b))).
Proof.
  intros Hb.
  destruct (constructed_tables b Hb)
    as (_ & [(_ & HN & Hs) | [(_ & HN & Hs) | [(_ & HN & Hs) | (_ & HN & Hs)]]]);
    rewrite HN, Hs; cbn [Z.to_nat Pos.to_nat Pos.iter_op Nat.add firstn];
    repeat (constructor; [cbn; intuition discriminate|]); constructor.
Qed.

Lemma phase_patterns_distinct_witness :
  exists b, GenericClockBoard_ctor 8 2048 false true true = Some b /\
            constructed b /\
            NoDup (firstn (Z.to_nat (m_NumStepperPhases (cfg b)))
                          (m_StepperSequence (cfg b))).
Proof.
  eexists. split; [reflexivity|].
  match goal with
  | |- constructed ?b /\ _ =>
      assert (Hc : constructed b)
        by (exists 8, 2048, false, true, true, b; split; reflexivity)
  end.
  split; [exact Hc|]. exact (phase_patterns_distinct _ Hc).
Defined.

(** X3.  Reversing the pins reverses the table: with the same other
    arguments, pattern [k] of the reversed driver is pattern
    [(phases - g - k) mod phases] of the normal one ([g] = 2 for
    half-stepping, 1 for full-stepping), so a clockwise command walks the
    normal table backwards. *)
Theorem reversed_pins_reverse_table rapid full half no b1 b2 k :
  GenericClockBoard_ctor rapid full false half no = Some b1 ->
  GenericClockBoard_ctor rapid full true half no = Some b2 ->
  0 <= k < m_NumStepperPhases (cfg b1) ->
  nth (Z.to_nat k) (m_StepperSequence (cfg b2)) 0
  = nth (Z.to_nat ((m_NumStepperPhases (cfg b1) - (if half then 2 else 1) - k)
                   mod m_NumStepperPhases (cfg b1)))
        (m_StepperSequence (cfg b1)) 0.
Proof.
  intros H1 H2.
  assert (C1 : constructed b1) by (exists rapid, full, false, half, no, b1; auto).
  assert (C2 : constructed b2) by (exists rapid, full, true, half, no, b2; auto).
  unfold GenericClockBoard_ctor in H1, H2.
  destruct (to_uint32 (full * (if half then 2 else 1)) =? 0); [discriminate|].
  injection H1 as <-. injection H2 as <-.
  cbn [cfg m_NumStepperPhases m_StepperSequence].
  destruct half; intros Hk.
  - assert (Hcases : k = 0 \/ k = 1 \/ k = 2 \/ k = 3 \/ k = 4 \/ k = 5 \/ k = 6 \/ k = 7)
      by lia.
    repeat (destruct Hcases as [-> | Hcases]; [reflexivity|]).
    subst k. reflexivity.
  - assert (Hcases : k = 0 \/ k = 1 \/ k = 2 \/ k = 3) by lia.
    repeat (destruct Hcases as [-> | Hcases]; [reflexivity|]).
    subst k. reflexivity.
Qed.

Lemma reversed_pins_reverse_table_witness :
  exists b1 b2,
    GenericClockBoard_ctor 8 2048 false true true = Some b1 /\
    GenericClockBoard_ctor 8 2048 true true true = Some b2 /\
    0 <= 3 < m_NumStepperPhases (cfg b1) /\
    nth (Z.to_nat 3) (m_StepperSequence (cfg b2)) 0
    = nth (Z.to_nat ((m_NumStepperPhases (cfg b1) - (if true then 2 else 1) - 3)
                     mod m_NumStepperPhases (cfg b1)))
          (m_StepperSequence (cfg b1)) 0.
Proof.
  do 2 eexists.
  assert (H1 : GenericClockBoard_ctor 8 2048 false true true = Some _) by reflexivity.
  assert (H2 : GenericClockBoard_ctor 8 2048 true true true = Some _) by reflexivity.
  split; [exact H1|]. split; [exact H2|].
  match goal with
  | |- ?A /\ _ => assert (Hk : A) by (cbn [cfg m_NumStepperPhases]; lia)
  end.
  split; [exact Hk|].
  exact (reversed_pins_reverse_table 8 2048 true true _ _ 3 H1 H2 Hk).
Defined.

(** ** What a move does to the phase, the shaft and the outputs *)

Lemma Step_rounds_signed steps :
  INT32_MIN < steps <= INT32_MAX ->
  (if steps >? 0 then 1 else -1)
  * Z.of_nat (if steps =? 0 then O else Step_rounds steps) = steps.
Proof.
  intros H. destruct (Z.eqb_spec steps 0) as [->|Hnz]; [reflexivity|].
  rewrite Step_rounds_abs by assumption.
  destruct (Z.gtb_spec steps 0); lia.
Qed.

(** X4.  For every count other than INT32_MIN, [Step] moves the phase index
    and the shaft by the signed count: the index ends at
    [(phase + steps) mod phases], the shaft at [shaft + steps].  Hence moves
    add up, whatever their directions and speeds. *)
Theorem Step_tracks_signed_count steps speed b :
  phase_ok b -> INT32_MIN < steps <= INT32_MAX ->
  m_CurrentStepperPhase (Step steps speed b)
  = (m_CurrentStepperPhase b + steps) mod m_NumStepperPhases (cfg b) /\
  shaft (Step steps speed b) = shaft b + steps.
Proof.
  intros Hok Hr. pose proof Hok as [HN Hp]. split.
  - rewrite (Step_phase steps speed b Hok).
    set (N := m_NumStepperPhases (cfg b)) in *.
    destruct (Z.eqb_spec steps 0) as [->|Hnz].
    + cbn [Z.of_nat Z.mul]. reflexivity.
    + rewrite Step_rounds_abs by assumption.
      destruct (Z.gtb_spec steps 0) as [Hpos|Hneg].
      * f_equal. lia.
      * replace (m_CurrentStepperPhase b + Z.abs steps * (N - 1))
          with (m_CurrentStepperPhase b + steps + Z.abs steps * N) by lia.
        apply Z_mod_plus_full.
  - rewrite Step_shaft, Step_rounds_signed by assumption. reflexivity.
Qed.

Lemma Step_tracks_signed_count_witness :
  exists b, GenericClockBoard_ctor 8 2048 false true true = Some b /\
            phase_ok b /\ INT32_MIN < -11 <= INT32_MAX /\
            m_CurrentStepperPhase (Step (-11) StepAuto b)
            = (m_CurrentStepperPhase b + -11) mod m_NumStepperPhases (cfg b) /\
            shaft (Step (-11) StepAuto b) = shaft b + -11.
Proof.
  eexists. split; [reflexivity|].
  match goal with
  | |- phase_ok ?b /\ _ =>
      assert (Hok : phase_ok b)
        by (unfold phase_ok; cbn [cfg m_NumStepperPhases m_CurrentStepperPhase]; lia)
  end.
  assert (Hr : INT32_MIN < -11 <= INT32_MAX) by (unfold INT32_MIN, INT32_MAX; lia).
  split; [exact Hok|]. split; [exact Hr|].
  exact (Step_tracks_signed_count (-11) StepAuto _ Hok Hr).
Defined.

(** X5.  The speed selects the delays and nothing else: two calls of [Step]
    with the same count put out the same patterns and end with the same
    phase index and shaft position, whatever their speeds. *)
Theorem Step_speed_only_times steps speed1 speed2 b :
  pulses (events_since (log b) (Step steps speed1 b))
  = pulses (events_since (log b) (Step steps speed2 b)) /\
  m_CurrentStepperPhase (Step steps speed1 b)
  = m_CurrentStepperPhase (Step steps speed2 b) /\
  shaft (Step steps speed1 b) = shaft (Step steps speed2 b).
Proof.
  destruct (Z.eq_dec steps 0) as [->|Hnz].
  - rewrite !Step_zero_eq.
    rewrite (events_since_app [Ev_w1tc (m_StepperClearMask (cfg b))] b
               (out_w1tc _ (note_call 0 speed1 b)) eq_refl).
    rewrite (events_since_app [Ev_w1tc (m_StepperClearMask (cfg b))] b
               (out_w1tc _ (note_call 0 speed2 b)) eq_refl).
    repeat split.
  - rewrite !Step_events, !pulses_loop_events by assumption.
    rewrite !Step_shaft. repeat split.
    rewrite !Step_nonzero by assumption.
    match goal with
    | |- m_CurrentStepperPhase (for_upto ?n ?j (step_iteration ?s1 ?st ?d ?a) ?b1) =
         m_CurrentStepperPhase (for_upto ?n ?j (step_iteration ?s2 ?st ?d ?a) ?b2) =>
        destruct (stepping_loop s1 st d a n j b1) as (_ & _ & _ & Hp1 & _);
        destruct (stepping_loop s2 st d a n j b2) as (_ & _ & _ & Hp2 & _)
    end.
    cbv zeta in Hp1, Hp2. rewrite Hp1, Hp2. reflexivity.
Qed.

(** One round leaves the register with the pattern set and then the mask
    cleared. *)
Lemma step_iteration_gpio speed steps delta absSteps j b :
  gpio_out (step_iteration speed steps delta absSteps j b) =
  Z.ldiff
    (Z.lor (gpio_out b)
       (nth (Z.to_nat (next_phase (m_NumStepperPhases (cfg b)) delta
                                  (m_CurrentStepperPhase b)))
            (m_StepperSequence (cfg b)) 0))
    (m_StepperClearMask (cfg b)).
Proof.
  unfold step_iteration, delay_if.
  destruct speed; cbn [speed_is_slow speed_is_auto];
    split_conditions; reflexivity.
Qed.

Lemma pattern_inside_mask b k :
  constructed b ->
  Z.land (nth k (m_StepperSequence (cfg b)) 0) (m_StepperClearMask (cfg b))
  = nth k (m_StepperSequence (cfg b)) 0.
Proof.
  intros Hb. destruct (constructed_cases b Hb) as (Hm & _ & _ & Hseq).
  rewrite Hm.
  destruct (Nat.lt_ge_cases k (length (m_StepperSequence (cfg b)))) as [Hk|Hk].
  - exact (proj1 (Forall_nth _ _) Hseq k 0 Hk).
  - rewrite nth_overflow by assumption. reflexivity.
Qed.

Lemma mask_covers_pins b pin :
  constructed b -> In pin (m_pStepperPins (cfg b)) ->
  Z.testbit (m_StepperClearMask (cfg b)) pin = true.
Proof.
  intros Hb Hin. destruct (constructed_cases b Hb) as (Hm & Hpins & _).
  rewrite Hm.
  destruct Hpins as [Hpins | Hpins]; rewrite Hpins in Hin; cbn in Hin;
    repeat (destruct Hin as [<- | Hin]; [reflexivity|]); contradiction.
Qed.

Lemma mask_only_pins b n :
  constructed b -> Z.testbit (m_StepperClearMask (cfg b)) n = true ->
  In n (m_pStepperPins (cfg b)).
Proof.
  intros Hb Hbit. destruct (constructed_cases b Hb) as (Hm & Hpins & _).
  rewrite Hm in Hbit.
  assert (Hn : n = 16 \/ n = 17 \/ n = 19 \/ n = 21).
  { destruct (Z.lt_ge_cases n 0) as [Hneg|Hnn];
      [rewrite Z.testbit_neg_r in Hbit by assumption; discriminate|].
    destruct (Z.lt_ge_cases 21 n) as [Hbig|Hsmall].
    - rewrite Z.bits_above_log2 in Hbit; [discriminate | lia |].
      change (Z.log2 2818048) with 21. assumption.
    - remember (Z.to_nat n) as k eqn:Hk.
      assert (Hlt : (k < 22)%nat) by lia.
      assert (Hn : n = Z.of_nat k) by lia.
      clear Hk Hsmall Hnn. subst n.
      do 22 (destruct k as [|k]; [first [discriminate Hbit | lia]|]).
      lia. }
  destruct Hpins as [-> | ->];
    unfold StepperPins, StepperPinsReversed, PHASE_1_PIN, PHASE_2_PIN,
      PHASE_3_PIN, PHASE_4_PIN; cbn [In]; lia.
Qed.

Lemma stepping_loop_gpio speed steps delta absSteps n :
  forall j b,
    constructed b ->
    let b' := for_upto n j (step_iteration speed steps delta absSteps) b in
    (n <> O -> pins_off b') /\
    (forall i, Z.testbit (m_StepperClearMask (cfg b)) i = false ->
               Z.testbit (gpio_out b') i = Z.testbit (gpio_out b) i).
Proof.
  induction n as [|n IH]; intros j b Hb.
  - cbn. split; [congruence | reflexivity].
  - cbn [for_upto].
    destruct (step_iteration_frame speed steps delta absSteps j b) as (Hc & _).
    pose proof (step_iteration_gpio speed steps delta absSteps j b) as Hg.
    assert (Hb1 : constructed (step_iteration speed steps delta absSteps j b)).
    { destruct Hb as (r & f & rv & h & no & b0 & Hctor & Hcfg).
      exists r, f, rv, h, no, b0. split; [assumption | congruence]. }
    destruct (IH (j + 1) _ Hb1) as (Hoff & Hframe). cbv zeta in *.
    split.
    + intros _. destruct n as [|n].
      * cbn [for_upto]. intros pin Hin. rewrite Hc in Hin. rewrite Hg.
        apply ldiff_testbit_mask, mask_covers_pins; assumption.
      * apply Hoff. congruence.
    + intros i Hi. rewrite Hframe by (rewrite Hc; exact Hi).
      rewrite Hg, Z.ldiff_spec, Z.lor_spec, Hi.
      rewrite <- (pattern_inside_mask b _ Hb), Z.land_spec, Hi.
      rewrite andb_false_r, orb_false_r. apply andb_true_r.
Qed.

(** X6.  After [Step] has returned, for any count other than INT32_MIN, no
    stepper output is left asserted: the coils are pulsed, never held. *)
Theorem Step_leaves_pins_off steps speed b :
  constructed b -> INT32_MIN < steps <= INT32_MAX ->
  pins_off (Step steps speed b).
Proof.
  intros Hb Hr. destruct (Z.eq_dec steps 0) as [->|Hnz].
  - rewrite Step_zero_eq. intros pin Hin. cbn in Hin |- *.
    apply ldiff_testbit_mask, mask_covers_pins; assumption.
  - rewrite Step_nonzero by assumption.
    assert (Hb0 : constructed (note_call steps speed b)) by exact Hb.
    match goal with
    | |- pins_off (for_upto ?n ?j (step_iteration ?sp ?st ?d ?a) ?b0) =>
        destruct (stepping_loop_gpio sp st d a n j b0 Hb0) as (Hoff & _)
    end.
    apply Hoff. pose proof (Step_rounds_abs steps Hr). lia.
Qed.

Lemma Step_leaves_pins_off_witness :
  exists b, GenericClockBoard_ctor 8 2048 false true true = Some b /\
            constructed b /\ INT32_MIN < 5 <= INT32_MAX /\
            pins_off (Step 5 StepSlow b).
Proof.
  eexists. split; [reflexivity|].
  match goal with
  | |- constructed ?b /\ _ =>
      assert (Hc : constructed b)
        by (exists 8, 2048, false, true, true, b; split; reflexivity)
  end.
  assert (Hr : INT32_MIN < 5 <= INT32_MAX) by (unfold INT32_MIN, INT32_MAX; lia).
  split; [exact Hc|]. split; [exact Hr|].
  exact (Step_leaves_pins_off 5 StepSlow _ Hc Hr).
Defined.

(** X7.  [Step] never changes an output bit that is not a stepper pin: the
    rest of the GPIO bank (the LED pins among it) is as it was, for every
    count and speed. *)
Theorem Step_keeps_other_outputs steps speed b n :
  constructed b -> ~ In n (m_pStepperPins (cfg b)) ->
  Z.testbit (gpio_out (Step steps speed b)) n = Z.testbit (gpio_out b) n.
Proof.
  intros Hb Hn.
  assert (Hbit : Z.testbit (m_StepperClearMask (cfg b)) n = false).
  { destruct (Z.testbit (m_StepperClearMask (cfg b)) n) eqn:E; [|reflexivity].
    contradiction Hn. apply mask_only_pins; assumption. }
  destruct (Z.eq_dec steps 0) as [->|Hnz].
  - rewrite Step_zero_eq. cbn [out_w1tc note_call gpio_out cfg].
    rewrite Z.ldiff_spec, Hbit. apply andb_true_r.
  - rewrite Step_nonzero by assumption.
    assert (Hb0 : constructed (note_call steps speed b)) by exact Hb.
    match goal with
    | |- context [for_upto ?k ?j (step_iteration ?sp ?st ?d ?a) ?b0] =>
        destruct (stepping_loop_gpio sp st d a k j b0 Hb0) as (_ & Hframe)
    end.
    apply Hframe. exact Hbit.
Qed.

Lemma Step_keeps_other_outputs_witness :
  exists b, GenericClockBoard_ctor 8 2048 false true true = Some b /\
            constructed b /\ ~ In 13 (m_pStepperPins (cfg b)) /\
            Z.testbit (gpio_out (Step 9 StepAuto b)) 13 = Z.testbit (gpio_out b) 13.
Proof.
  eexists. split; [reflexivity|].
  match goal with
  | |- constructed ?b /\ _ =>
      assert (Hc : constructed b)
        by (exists 8, 2048, false, true, true, b; split; reflexivity)
  end.
  match goal with
  | |- _ /\ ?A /\ _ =>
      assert (Hn : A)
        by (cbn; unfold PHASE_1_PIN, PHASE_2_PIN, PHASE_3_PIN, PHASE_4_PIN; lia)
  end.
  split; [exact Hc|]. split; [exact Hn|].
  exact (Step_keeps_other_outputs 9 StepAuto _ 13 Hc Hn).
Defined.

(** ** How long a move takes *)

Lemma total_delay_delays ds rest :
  total_delay (map Ev_delayMicroseconds ds ++ rest) =
  fold_right Z.add 0 ds + total_delay rest.
Proof. induction ds as [|d ds IH]; cbn; [reflexivity | rewrite IH; lia]. Qed.

Lemma total_delay_iteration c speed absSteps j p rest :
  total_delay (iteration_events c speed absSteps j p ++ rest) =
  fold_right Z.add 0 (iteration_delays speed (m_StepperRapidDelayUs c) absSteps j)
  + total_delay rest.
Proof.
  unfold iteration_events. cbn [app total_delay].
  rewrite <- app_assoc, total_delay_delays. reflexivity.
Qed.

Lemma total_delay_loop_fast c delta absSteps n :
  forall j p,
    total_delay (loop_events c StepFast delta absSteps n j p)
    = Z.of_nat n * m_StepperRapidDelayUs c.
Proof.
  induction n as [|n IH]; intros j p; [reflexivity|].
  cbn [loop_events]. rewrite total_delay_iteration, IH.
  cbn [iteration_delays fold_right]. lia.
Qed.

Lemma total_delay_loop_slow c delta absSteps n :
  forall j p,
    total_delay (loop_events c StepSlow delta absSteps n j p)
    = Z.of_nat n * (m_StepperRapidDelayUs c
                    + to_uint32 (m_StepperRapidDelayUs c * 4)).
Proof.
  induction n as [|n IH]; intros j p; [reflexivity|].
  cbn [loop_events]. rewrite total_delay_iteration, IH.
  cbn [iteration_delays fold_right]. lia.
Qed.

Lemma total_delay_loop_auto c delta absSteps n :
  forall j p,
    total_delay (loop_events c StepAuto delta absSteps n j p)
    = m_StepperRapidDelayUs c * auto_units absSteps n j.
Proof.
  induction n as [|n IH]; intros j p; [cbn; lia|].
  cbn [loop_events auto_units].
  rewrite total_delay_iteration, IH, auto_delays_total. lia.
Qed.

Lemma auto_units_closed absSteps n :
  forall j, 0 <= j -> j + Z.of_nat n = absSteps ->
    auto_units absSteps n j =
    Z.of_nat n
    + (Z.min absSteps 20 - Z.min j 20) + (Z.min absSteps 10 - Z.min j 10)
    + (Z.min absSteps 5 - Z.min j 5)
    + Z.min (Z.of_nat n) 19 + Z.min (Z.of_nat n) 9 + Z.min (Z.of_nat n) 4.
Proof.
  induction n as [|n IH]; intros j Hj Hsum.
  - cbn [auto_units]. replace absSteps with j by lia. cbn. lia.
  - cbn [auto_units]. rewrite (IH (j + 1)) by lia.
    unfold auto_conditions_met.
    destruct (Z.ltb_spec j 20), (Z.ltb_spec j 10), (Z.ltb_spec j 5),
      (Z.ltb_spec (absSteps - j) 20), (Z.ltb_spec (absSteps - j) 10),
      (Z.ltb_spec (absSteps - j) 5); cbn [Z.b2z]; lia.
Qed.

(** X8.  A StepAuto move of [n = |steps|] steps (any count other than
    INT32_MIN) waits the rapid delay [n + min n 20 + min n 10 + min n 5 +
    min n 19 + min n 9 + min n 4] times in all: from 20 steps on, 67 rapid
    delays more than the same move at StepFast, 35 of them while speeding up
    and 32 while slowing down. *)
Theorem Step_auto_total_time steps b :
  INT32_MIN < steps <= INT32_MAX ->
  let n := Z.abs steps in
  total_delay (events_since (log b) (Step steps StepAuto b))
  = m_StepperRapidDelayUs (cfg b)
    * (n + Z.min n 20 + Z.min n 10 + Z.min n 5
       + Z.min n 19 + Z.min n 9 + Z.min n 4).
Proof.
  intros Hr n. destruct (Z.eq_dec steps 0) as [->|Hnz].
  - rewrite Step_zero_eq.
    rewrite (events_since_app [Ev_w1tc (m_StepperClearMask (cfg b))] b
               (out_w1tc _ (note_call 0 StepAuto b)) eq_refl).
    cbn. lia.
  - rewrite Step_events by assumption.
    rewrite total_delay_loop_auto. f_equal.
    pose proof (Step_rounds_abs steps Hr) as Hn.
    rewrite (auto_units_closed (abs32 steps) (Step_rounds steps) 0);
      [| lia | rewrite abs32_small by assumption; lia].
    rewrite abs32_small by assumption. fold n. rewrite Hn. fold n.
    change (Z.min 0 20) with 0. change (Z.min 0 10) with 0.
    change (Z.min 0 5) with 0. lia.
Qed.

Lemma Step_auto_total_time_witness :
  exists b, GenericClockBoard_ctor 8 2048 false true true = Some b /\
            INT32_MIN < -100 <= INT32_MAX /\
            total_delay (events_since (log b) (Step (-100) StepAuto b))
            = m_StepperRapidDelayUs (cfg b) * 167.
Proof.
  eexists. split; [reflexivity|].
  assert (Hr : INT32_MIN < -100 <= INT32_MAX) by (unfold INT32_MIN, INT32_MAX; lia).
  split; [exact Hr|].
  exact (Step_auto_total_time (-100) _ Hr).
Defined.

(** X9.  A StepFast move of [n = |steps|] steps waits [n] rapid delays, and
    a StepSlow move [n] times the rapid delay plus its fourfold (the
    fourfold formed in [uint32_t]), for any count other than INT32_MIN. *)
Theorem Step_fast_slow_total_time steps b :
  INT32_MIN < steps <= INT32_MAX ->
  total_delay (events_since (log b) (Step steps StepFast b))
  = Z.abs steps * m_StepperRapidDelayUs (cfg b) /\
  total_delay (events_since (log b) (Step steps StepSlow b))
  = Z.abs steps * (m_StepperRapidDelayUs (cfg b)
                   + to_uint32 (m_StepperRapidDelayUs (cfg b) * 4)).
Proof.
  intros Hr. destruct (Z.eq_dec steps 0) as [->|Hnz].
  - rewrite !Step_zero_eq.
    rewrite (events_since_app [Ev_w1tc (m_StepperClearMask (cfg b))] b
               (out_w1tc _ (note_call 0 StepFast b)) eq_refl).
    rewrite (events_since_app [Ev_w1tc (m_StepperClearMask (cfg b))] b
               (out_w1tc _ (note_call 0 StepSlow b)) eq_refl).
    split; reflexivity.
  - rewrite !Step_events by assumption.
    rewrite total_delay_loop_fast, total_delay_loop_slow.
    rewrite Step_rounds_abs by assumption. split; reflexivity.
Qed.

Lemma Step_fast_slow_total_time_witness :
  exists b, GenericClockBoard_ctor 8 2048 false true true = Some b /\
            INT32_MIN < 7 <= INT32_MAX /\
            total_delay (events_since (log b) (Step 7 StepFast b))
            = Z.abs 7 * m_StepperRapidDelayUs (cfg b) /\
            total_delay (events_since (log b) (Step 7 StepSlow b))
            = Z.abs 7 * (m_StepperRapidDelayUs (cfg b)
                         + to_uint32 (m_StepperRapidDelayUs (cfg b) * 4)).
Proof.
  eexists. split; [reflexivity|].
  assert (Hr : INT32_MIN < 7 <= INT32_MAX) by (unfold INT32_MIN, INT32_MAX; lia).
  split; [exact Hr|].
  exact (Step_fast_slow_total_time 7 _ Hr).
Defined.

(** X10.  The rapid delay the constructor derives makes one revolution at
    StepFast last at most [rapidSecondsPerRev] seconds, and short of it by
    less than one microsecond per step (as long as the microsecond count
    fits [uint32_t] and the step count [int32_t]). *)
Theorem fast_revolution_time rapid full reversed half no b :
  GenericClockBoard_ctor rapid full reversed half no = Some b ->
  0 <= rapid -> 1000000 * rapid < 4294967296 ->
  0 < full -> full * (if half then 2 else 1) <= INT32_MAX ->
  let stepsPerRev := full * (if half then 2 else 1) in
  let T := total_delay (events_since (log b) (Step stepsPerRev StepFast b)) in
  T <= 1000000 * rapid < T + stepsPerRev.
Proof.
  intros Hc Hrapid Hfit Hfull Hsteps stepsPerRev T. subst T.
  assert (Hspr : 0 < stepsPerRev <= INT32_MAX) by (subst stepsPerRev; destruct half; lia).
  unfold INT32_MAX in Hspr.
  destruct (Step_fast_slow_total_time stepsPerRev b) as [Hfast _];
    [unfold INT32_MIN, INT32_MAX; lia|].
  rewrite Hfast.
  unfold GenericClockBoard_ctor in Hc. fold stepsPerRev in Hc.
  rewrite (to_uint32_small stepsPerRev) in Hc by lia.
  destruct (Z.eqb_spec stepsPerRev 0); [lia|].
  apply (f_equal (fun o => match o with
                           | Some b0 => m_StepperRapidDelayUs (cfg b0)
                           | None => 0
                           end)) in Hc.
  cbn [cfg m_StepperRapidDelayUs] in Hc. rewrite <- Hc.
  rewrite to_uint32_small by lia.
  rewrite Z.abs_eq by lia.
  pose proof (Z.div_mod (1000000 * rapid) stepsPerRev ltac:(lia)) as Hdm.
  pose proof (Z.mod_pos_bound (1000000 * rapid) stepsPerRev ltac:(lia)) as Hm.
  lia.
Qed.

Lemma fast_revolution_time_witness :
  exists b, GenericClockBoard_ctor 8 2048 false true true = Some b /\
            0 <= 8 /\ 1000000 * 8 < 4294967296 /\ 0 < 2048 /\
            2048 * (if true then 2 else 1) <= INT32_MAX /\
            total_delay (events_since (log b)
                           (Step (2048 * (if true then 2 else 1)) StepFast b))
            <= 1000000 * 8
            < total_delay (events_since (log b)
                             (Step (2048 * (if true then 2 else 1)) StepFast b))
              + 2048 * (if true then 2 else 1).
Proof.
  eexists.
  assert (Hc : GenericClockBoard_ctor 8 2048 false true true = Some _) by reflexivity.
  assert (H1 : 0 <= 8) by lia.
  assert (H2 : 1000000 * 8 < 4294967296) by lia.
  assert (H3 : 0 < 2048) by lia.
  assert (H4 : 2048 * (if true then 2 else 1) <= INT32_MAX)
    by (unfold INT32_MAX; lia).
  split; [exact Hc|]. split; [exact H1|]. split; [exact H2|].
  split; [exact H3|]. split; [exact H4|].
  exact (fast_revolution_time 8 2048 false true true _ Hc H1 H2 H3 H4).
Defined.

(** * Further properties of the clock mechanics *)

(** A time of day as the time source gives it. *)
Definition valid_time (t : tm) : Prop :=
  0 <= tm_hour t < 24 /\ 0 <= tm_min t < 60.

(** The stored position and the shaft agree with the time last given: the
    cycle is set, the stored position is less than a cycle from zero and is
    the target of [m_LastMinutes] up to whole cycles, and so is the shaft,
    counted from the position [home] where it stood when 12:00 was set. *)
Definition in_step (home : Z) (c : GenevaClockMechanics) : Prop :=
  0 < m_StepsPerCycle c <= 2982616 /\
  0 <= m_LastMinutes c < 720 /\
  Z.abs (m_LastStepperPos c) < m_StepsPerCycle c /\
  (m_StepsPerCycle c
   | m_LastStepperPos c - newMotorPos (m_StepsPerCycle c) (m_LastMinutes c)) /\
  (m_StepsPerCycle c
   | shaft (board c) - home - newMotorPos (m_StepsPerCycle c) (m_LastMinutes c)).

(** ** The constructor's step counts *)

Lemma clock_ctor_fields rapid full reversed half no c :
  GenevaClockMechanics_ctor rapid full reversed half no = Some c ->
  m_StepsPerHour c
  = to_uint32 (to_uint32 (full * (if half then 2 else 1)) * 4) / 3 /\
  m_StepsPerCycle c
  = to_int32 (to_uint32
                (to_uint32 (to_uint32 (full * (if half then 2 else 1)) * 4) * 4)) /\
  m_LastStepperPos c = 0 /\ m_LastMinutes c = 0.
Proof.
  unfold GenevaClockMechanics_ctor.
  destruct (GenericClockBoard_ctor rapid full reversed half no) as [b|];
    [|discriminate].
  cbn [bind]. intros H.
  pose proof (f_equal (fun o => match o with Some c0 => m_StepsPerHour c0 | None => 0 end) H) as H1.
  pose proof (f_equal (fun o => match o with Some c0 => m_StepsPerCycle c0 | None => 0 end) H) as H2.
  pose proof (f_equal (fun o => match o with Some c0 => m_LastStepperPos c0 | None => 0 end) H) as H3.
  pose proof (f_equal (fun o => match o with Some c0 => m_LastMinutes c0 | None => 0 end) H) as H4.
  cbn [m_StepsPerHour m_StepsPerCycle m_LastStepperPos m_LastMinutes] in H1, H2, H3, H4.
  rewrite <- H1, <- H2, <- H3, <- H4. repeat split; reflexivity.
Qed.

(** X11.  As long as sixteen times the steps per revolution fit [int32_t],
    the constructor sets [m_StepsPerCycle] to exactly 16 times the steps per
    revolution, while [m_StepsPerHour] is rounded down: twelve hours of
    [m_StepsPerHour] fall short of the cycle by 4 times the remainder of
    the division by three, at most 8 steps, and by nothing exactly when the
    steps per revolution are a multiple of three. *)
Theorem steps_per_cycle_and_hour rapid full reversed half no c :
  GenevaClockMechanics_ctor rapid full reversed half no = Some c ->
  0 < full -> 16 * (full * (if half then 2 else 1)) <= INT32_MAX ->
  let stepsPerRev := full * (if half then 2 else 1) in
  m_StepsPerCycle c = 16 * stepsPerRev /\
  m_StepsPerHour c = (4 * stepsPerRev) / 3 /\
  m_StepsPerCycle c - 12 * m_StepsPerHour c = 4 * ((4 * stepsPerRev) mod 3) /\
  0 <= m_StepsPerCycle c - 12 * m_StepsPerHour c <= 8 /\
  (m_StepsPerCycle c = 12 * m_StepsPerHour c <-> stepsPerRev mod 3 = 0).
Proof.
  intros Hc Hfull Hfit stepsPerRev. unfold INT32_MAX in Hfit.
  destruct (clock_ctor_fields _ _ _ _ _ _ Hc) as (Hsph & Hspc & _).
  fold stepsPerRev in Hsph, Hspc, Hfit.
  assert (Hpos : 0 < stepsPerRev) by (subst stepsPerRev; destruct half; lia).
  rewrite (to_uint32_small stepsPerRev) in Hsph, Hspc by lia.
  rewrite (to_uint32_small (stepsPerRev * 4)) in Hsph, Hspc by lia.
  rewrite to_uint32_small in Hspc by lia.
  rewrite to_int32_small in Hspc by (unfold in_int32, INT32_MIN, INT32_MAX; lia).
  replace (stepsPerRev * 4) with (4 * stepsPerRev) in Hsph by lia.
  pose proof (Z.div_mod (4 * stepsPerRev) 3 ltac:(lia)) as Hdm.
  pose proof (Z.mod_pos_bound (4 * stepsPerRev) 3 ltac:(lia)) as Hm.
  pose proof (Z.div_mod stepsPerRev 3 ltac:(lia)) as Hdm'.
  pose proof (Z.mod_pos_bound stepsPerRev 3 ltac:(lia)) as Hm'.
  assert (Hrel : (4 * stepsPerRev) mod 3 = stepsPerRev mod 3).
  { replace (4 * stepsPerRev) with (stepsPerRev + stepsPerRev * 3) by lia.
    apply Z_mod_plus_full. }
  rewrite Hsph, Hspc. repeat split; try lia.
Qed.

Lemma steps_per_cycle_and_hour_witness :
  exists c,
    GenevaClockMechanics_ctor 8 2048 false true true = Some c /\
    0 < 2048 /\ 16 * (2048 * (if true then 2 else 1)) <= INT32_MAX /\
    m_StepsPerCycle c = 16 * (2048 * (if true then 2 else 1)) /\
    m_StepsPerHour c = (4 * (2048 * (if true then 2 else 1))) / 3 /\
    m_StepsPerCycle c - 12 * m_StepsPerHour c
      = 4 * ((4 * (2048 * (if true then 2 else 1))) mod 3) /\
    0 <= m_StepsPerCycle c - 12 * m_StepsPerHour c <= 8 /\
    (m_StepsPerCycle c = 12 * m_StepsPerHour c
     <-> (2048 * (if true then 2 else 1)) mod 3 = 0).
Proof.
  eexists.
  assert (Hc : GenevaClockMechanics_ctor 8 2048 false true true = Some _) by reflexivity.
  assert (H1 : 0 < 2048) by lia.
  assert (H2 : 16 * (2048 * (if true then 2 else 1)) <= INT32_MAX)
    by (unfold INT32_MAX; lia).
  split; [exact Hc|]. split; [exact H1|]. split; [exact H2|].
  exact (steps_per_cycle_and_hour 8 2048 false true true _ Hc H1 H2).
Defined.

(** ** The minute of the cycle and the shortest way *)

(** X12.  For a time of day, the minute of the cycle is
    [(hour mod 12) * 60 + minute] and lies in 0 .. 719; an hour of the
    afternoon gives the same as the hour twelve earlier. *)
Theorem newTimeInMinutes_of_day t :
  valid_time t ->
  newTimeInMinutes t = (tm_hour t mod 12) * 60 + tm_min t /\
  0 <= newTimeInMinutes t < 720 /\
  (12 <= tm_hour t ->
   newTimeInMinutes t
   = newTimeInMinutes {| tm_hour := tm_hour t - 12; tm_min := tm_min t |}).
Proof.
  intros [Hh Hm].
  assert (Hgen : forall h m, 0 <= h < 24 -> 0 <= m < 60 ->
            newTimeInMinutes {| tm_hour := h; tm_min := m |} = (h mod 12) * 60 + m).
  { intros h m Hh' Hm'. unfold newTimeInMinutes. cbn [tm_hour tm_min].
    change HOURS_PER_CYCLE with 12. change MINUTES_PER_HOUR with 60.
    pose proof (Z.mod_pos_bound h 12 ltac:(lia)).
    rewrite (to_uint32_small h), (to_uint32_small m) by lia.
    rewrite (to_uint32_small (h mod 12 * 60)) by lia.
    rewrite to_uint32_small by lia.
    apply to_int32_small. unfold in_int32, INT32_MIN, INT32_MAX. lia. }
  assert (Heq : newTimeInMinutes t = (tm_hour t mod 12) * 60 + tm_min t)
    by (destruct t as [h m]; apply Hgen; assumption).
  pose proof (Z.mod_pos_bound (tm_hour t) 12 ltac:(lia)).
  repeat split; try lia.
  intros Hpm. rewrite Heq, Hgen by lia. f_equal. f_equal.
  replace (tm_hour t) with (tm_hour t - 12 + 1 * 12) at 1 by lia.
  apply Z_mod_plus_full.
Qed.

Lemma newTimeInMinutes_of_day_witness :
  valid_time {| tm_hour := 23; tm_min := 59 |} /\
  newTimeInMinutes {| tm_hour := 23; tm_min := 59 |} = (23 mod 12) * 60 + 59 /\
  0 <= newTimeInMinutes {| tm_hour := 23; tm_min := 59 |} < 720 /\
  (12 <= 23 ->
   newTimeInMinutes {| tm_hour := 23; tm_min := 59 |}
   = newTimeInMinutes {| tm_hour := 23 - 12; tm_min := 59 |}).
Proof.
  assert (Hv : valid_time {| tm_hour := 23; tm_min := 59 |})
    by (unfold valid_time; cbn [tm_hour tm_min]; lia).
  split; [exact Hv|].
  exact (newTimeInMinutes_of_day {| tm_hour := 23; tm_min := 59 |} Hv).
Defined.

(** X13.  The adjustment of [deltaSteps]: a delta of at most half a cycle
    either way is passed on as it is; a larger one is replaced by a delta of
    strictly smaller magnitude; and in all cases the result differs from the
    delta by a whole number of cycles. *)
Theorem normalize_delta_shortest spc d :
  0 < spc <= INT32_MAX -> in_int32 d ->
  (Z.abs d <= Z.quot spc 2 -> normalize_delta spc d = d) /\
  (Z.quot spc 2 < Z.abs d -> Z.abs (normalize_delta spc d) < Z.abs d) /\
  (spc | normalize_delta spc d - d).
Proof.
  unfold in_int32, INT32_MIN, INT32_MAX. intros Hspc Hd. unfold normalize_delta.
  rewrite (to_int32_small (- spc))
    by (unfold in_int32, INT32_MIN, INT32_MAX; lia).
  rewrite Z.quot_opp_l by lia.
  rewrite (Z.quot_div_nonneg spc 2) by lia.
  pose proof (Z.div_mod spc 2 ltac:(lia)) as Hdm.
  pose proof (Z.mod_pos_bound spc 2 ltac:(lia)) as Hm.
  destruct (Z.gtb_spec d (spc / 2)).
  - rewrite to_int32_small by (unfold in_int32, INT32_MIN, INT32_MAX; lia).
    repeat split; try lia. exists (-1). lia.
  - destruct (Z.ltb_spec d (- (spc / 2))).
    + rewrite to_int32_small by (unfold in_int32, INT32_MIN, INT32_MAX; lia).
      repeat split; try lia. exists 1. lia.
    + repeat split; try lia. exists 0. lia.
Qed.

Lemma normalize_delta_shortest_witness :
  0 < 65536 <= INT32_MAX /\ in_int32 65444 /\
  (Z.abs 65444 <= Z.quot 65536 2 -> normalize_delta 65536 65444 = 65444) /\
  (Z.quot 65536 2 < Z.abs 65444 ->
   Z.abs (normalize_delta 65536 65444) < Z.abs 65444) /\
  (65536 | normalize_delta 65536 65444 - 65444).
Proof.
  assert (H1 : 0 < 65536 <= INT32_MAX) by (unfold INT32_MAX; lia).
  assert (H2 : in_int32 65444) by (unfold in_int32, INT32_MIN, INT32_MAX; lia).
  split; [exact H1|]. split; [exact H2|].
  exact (normalize_delta_shortest 65536 65444 H1 H2).
Defined.

(** ** Updates *)

Lemma UpdateClock_minutes t c c' :
  UpdateClock t c = Some c' -> m_LastMinutes c' = newTimeInMinutes t.
Proof.
  unfold UpdateClock. destruct (Z.eqb_spec (newTimeInMinutes t) (m_LastMinutes c)) as [E|E].
  - intros H. assert (c' = c) by congruence. subst c'. symmetry. exact E.
  - destruct (m_StepsPerCycle c =? 0); [discriminate|]. intros H.
    apply (f_equal (fun o => match o with Some c0 => m_LastMinutes c0 | None => 0 end)) in H.
    cbn [m_LastMinutes] in H. symmetry. exact H.
Qed.

(** X14.  An update with the time of the last update does nothing: no call
    of [Step], no change of the clock object. *)
Theorem UpdateClock_same_time_twice t c c' :
  UpdateClock t c = Some c' -> UpdateClock t c' = Some c'.
Proof.
  intros H. apply UpdateClock_unchanged. symmetry.
  exact (UpdateClock_minutes t c c' H).
Qed.

Lemma UpdateClock_same_time_twice_witness :
  exists c c',
    standard_clock = Some c /\ UpdateClock at_06_01 c = Some c' /\
    UpdateClock at_06_01 c' = Some c'.
Proof.
  do 2 eexists. split; [reflexivity|].
  match goal with
  | |- UpdateClock _ ?c = _ /\ _ =>
      assert (H : UpdateClock at_06_01 c = Some _)
        by (unfold UpdateClock; reflexivity)
  end.
  split; [exact H|].
  exact (UpdateClock_same_time_twice at_06_01 _ _ H).
Defined.

Lemma newMotorPos_range spc M :
  0 < spc <= 2982616 -> 0 <= M < 720 ->
  newMotorPos spc M = (M * spc) / 720 /\ 0 <= newMotorPos spc M < spc.
Proof.
  intros Hspc HM. unfold newMotorPos. change MINUTES_PER_CYCLE with 720.
  assert (Hprod : 0 <= M * spc <= 719 * 2982616) by nia.
  rewrite to_int32_small by (unfold in_int32, INT32_MIN, INT32_MAX; lia).
  rewrite Z.quot_div_nonneg by lia.
  split; [reflexivity|]. split.
  - apply Z.div_pos; lia.
  - apply Z.div_lt_upper_bound; nia.
Qed.

Lemma normalize_delta_cases spc raw :
  0 < spc <= 2982616 -> - spc < raw < 2 * spc ->
  (spc | normalize_delta spc raw - raw) /\
  Z.abs (normalize_delta spc raw) < spc.
Proof.
  intros Hspc Hraw. unfold normalize_delta.
  rewrite (to_int32_small (- spc))
    by (unfold in_int32, INT32_MIN, INT32_MAX; lia).
  rewrite Z.quot_opp_l by lia.
  rewrite (Z.quot_div_nonneg spc 2) by lia.
  pose proof (Z.div_mod spc 2 ltac:(lia)) as Hdm.
  pose proof (Z.mod_pos_bound spc 2 ltac:(lia)) as Hm.
  destruct (Z.gtb_spec raw (spc / 2)).
  - rewrite to_int32_small by (unfold in_int32, INT32_MIN, INT32_MAX; lia).
    split; [exists (-1); lia | lia].
  - destruct (Z.ltb_spec raw (- (spc / 2))).
    + rewrite to_int32_small by (unfold in_int32, INT32_MIN, INT32_MAX; lia).
      split; [exists 1; lia | lia].
    + split; [exists 0; lia | lia].
Qed.

Lemma rem_congruent a b : b <> 0 -> (b | Z.rem a b - a).
Proof.
  intros Hb. exists (- (Z.quot a b)).
  pose proof (Z.quot_rem' a b). lia.
Qed.

Lemma newTimeInMinutes_of_day_range t :
  valid_time t -> 0 <= newTimeInMinutes t < 720.
Proof.
  intros [Hh Hm]. unfold newTimeInMinutes.
  change HOURS_PER_CYCLE with 12. change MINUTES_PER_HOUR with 60.
  pose proof (Z.mod_pos_bound (tm_hour t) 12 ltac:(lia)).
  rewrite (to_uint32_small (tm_hour t)), (to_uint32_small (tm_min t)) by lia.
  rewrite (to_uint32_small (tm_hour t mod 12 * 60)) by lia.
  rewrite to_uint32_small by lia.
  rewrite to_int32_small by (unfold in_int32, INT32_MIN, INT32_MAX; lia).
  lia.
Qed.

(** One update, from a state whose stored position is less than a cycle
    from zero, for a time of day. *)
Lemma UpdateClock_step t c :
  0 < m_StepsPerCycle c <= 2982616 -> valid_time t ->
  Z.abs (m_LastStepperPos c) < m_StepsPerCycle c ->
  let spc := m_StepsPerCycle c in
  let M := newTimeInMinutes t in
  exists c' new,
    UpdateClock t c = Some c' /\
    m_StepsPerCycle c' = spc /\ m_LastMinutes c' = M /\
    Z.abs (m_LastStepperPos c') < spc /\
    step_calls (board c') = new ++ step_calls (board c) /\
    (new = [] \/ exists d, new = [(d, StepAuto)] /\ Z.abs d < spc) /\
    (M = m_LastMinutes c -> c' = c) /\
    (M <> m_LastMinutes c -> (spc | m_LastStepperPos c' - newMotorPos spc M)) /\
    (spc | (shaft (board c') - m_LastStepperPos c')
           - (shaft (board c) - m_LastStepperPos c)).
Proof.
  intros Hspc Hvalid Hpos spc M.
  pose proof (newTimeInMinutes_of_day_range t Hvalid) as HM. fold M in HM.
  destruct (Z.eq_dec M (m_LastMinutes c)) as [E|E].
  - exists c, []. rewrite (UpdateClock_unchanged t c E).
    split; [reflexivity|]. split; [reflexivity|].
    split; [symmetry; exact E|]. split; [exact Hpos|].
    split; [reflexivity|]. split; [left; reflexivity|].
    split; [intros _; reflexivity|].
    split; [intros Hne; contradiction|].
    exists 0. lia.
  - destruct (newMotorPos_range spc M Hspc HM) as (_ & HT).
    set (T := newMotorPos spc M) in *.
    set (raw := T - m_LastStepperPos c).
    assert (Hraw : - spc < raw < 2 * spc) by (subst raw; lia).
    destruct (normalize_delta_cases spc raw Hspc Hraw) as (Hdiv & Habs).
    assert (Hd : deltaSteps_of c M = normalize_delta spc raw).
    { unfold deltaSteps_of. fold spc. fold T. fold raw.
      rewrite (to_int32_small raw)
        by (unfold in_int32, INT32_MIN, INT32_MAX; lia).
      reflexivity. }
    set (d := normalize_delta spc raw) in *.
    assert (Hsum : to_int32 (m_LastStepperPos c + d) = m_LastStepperPos c + d)
      by (apply to_int32_small; unfold in_int32, INT32_MIN, INT32_MAX; lia).
    pose proof (Z.rem_bound_abs (m_LastStepperPos c + d) spc ltac:(lia)) as Hrem.
    assert (Hstore : to_int32 (Z.rem (m_LastStepperPos c + d) spc)
                     = Z.rem (m_LastStepperPos c + d) spc)
      by (apply to_int32_small; unfold in_int32, INT32_MIN, INT32_MAX; lia).
    pose proof (rem_congruent (m_LastStepperPos c + d) spc ltac:(lia)) as Hcong.
    unfold UpdateClock. fold M.
    destruct (Z.eqb_spec M (m_LastMinutes c)) as [|_]; [contradiction|].
    fold spc. destruct (Z.eqb_spec spc 0) as [|_]; [lia|].
    rewrite Hd, Hsum, Hstore.
    eexists. exists [(d, StepAuto)]. split; [reflexivity|].
    cbn [m_StepsPerCycle m_LastMinutes m_LastStepperPos board].
    destruct (Step_frame d StepAuto (board c)) as (_ & _ & Hcalls).
    rewrite Step_shaft, Step_rounds_signed
      by (unfold INT32_MIN, INT32_MAX; lia).
    split; [reflexivity|]. split; [reflexivity|]. split; [lia|].
    split; [rewrite Hcalls; reflexivity|].
    split; [right; exists d; split; [reflexivity | exact Habs]|].
    split; [intros Hsame; contradiction|].
    split.
    + intros _. destruct Hcong as [k Hk]. destruct Hdiv as [k' Hk'].
      exists (k + k'). subst raw. lia.
    + destruct Hcong as [k Hk]. exists (- k). lia.
Qed.

(** X15.  For a time of day and a cycle of at most 2982616 steps (so that
    720 times the cycle fits [int32_t]), an update from a stored position
    less than a cycle from zero makes at most one call of [Step], at
    StepAuto and of less than a whole cycle of steps, and stores a position
    that is again less than a cycle from zero. *)
Theorem UpdateClock_moves_less_than_a_cycle t c c' :
  0 < m_StepsPerCycle c <= 2982616 -> valid_time t ->
  Z.abs (m_LastStepperPos c) < m_StepsPerCycle c ->
  UpdateClock t c = Some c' ->
  Z.abs (m_LastStepperPos c') < m_StepsPerCycle c /\
  (step_calls (board c') = step_calls (board c) \/
   exists d, step_calls (board c') = (d, StepAuto) :: step_calls (board c) /\
             Z.abs d < m_StepsPerCycle c).
Proof.
  intros Hspc Hvalid Hpos Hrun.
  destruct (UpdateClock_step t c Hspc Hvalid Hpos)
    as (c1 & new & Hrun1 & _ & _ & Hpos1 & Hcalls & Hnew & _).
  assert (c1 = c') by congruence. subst c1.
  split; [exact Hpos1|].
  destruct Hnew as [-> | (d & -> & Hd)].
  - left. exact Hcalls.
  - right. exists d. split; [exact Hcalls | exact Hd].
Qed.

Lemma UpdateClock_moves_less_than_a_cycle_witness :
  exists c c',
    standard_clock = Some c /\
    0 < m_StepsPerCycle c <= 2982616 /\ valid_time at_11_59 /\
    Z.abs (m_LastStepperPos c) < m_StepsPerCycle c /\
    UpdateClock at_11_59 c = Some c' /\
    Z.abs (m_LastStepperPos c') < m_StepsPerCycle c /\
    (step_calls (board c') = step_calls (board c) \/
     exists d, step_calls (board c') = (d, StepAuto) :: step_calls (board c) /\
               Z.abs d < m_StepsPerCycle c).
Proof.
  do 2 eexists. split; [reflexivity|].
  match goal with
  | |- ?A /\ ?B /\ ?C /\ UpdateClock _ ?c = _ /\ _ =>
      assert (Ha : A) by (cbn [m_StepsPerCycle]; vm_compute; intuition discriminate);
      assert (Hb : B) by (unfold valid_time, at_11_59; cbn [tm_hour tm_min]; lia);
      assert (Hc : C) by (cbn [m_StepsPerCycle m_LastStepperPos]; vm_compute; reflexivity);
      assert (Hd : UpdateClock at_11_59 c = Some _)
        by (unfold UpdateClock; reflexivity)
  end.
  split; [exact Ha|]. split; [exact Hb|]. split; [exact Hc|]. split; [exact Hd|].
  exact (UpdateClock_moves_less_than_a_cycle at_11_59 _ _ Ha Hb Hc Hd).
Defined.

(** X16.  Being in step is kept by every run of updates for times of day:
    the run gives a result, and afterwards the stored position and the shaft
    are, up to whole cycles, at the target of the last time given, the
    stored position less than a cycle from zero. *)
Theorem UpdateClock_all_keeps_in_step home times c :
  in_step home c -> Forall valid_time times ->
  exists c',
    UpdateClock_all times c = Some c' /\ in_step home c' /\
    (times <> [] -> m_LastMinutes c' = newTimeInMinutes (last times at_00_00)).
Proof.
  intros Hin Hvalid. revert c Hin.
  induction Hvalid as [|t times Ht Hrest IH]; intros c Hin.
  - exists c. split; [reflexivity|]. split; [exact Hin|]. congruence.
  - destruct Hin as (Hspc & Hmin & Hpos & Hstored & Hshaft).
    destruct (UpdateClock_step t c Hspc Ht Hpos)
      as (c1 & new & Hrun1 & Hspc1 & Hmin1 & Hpos1 & _ & _ & Hsame & Hmoved & Hsync).
    cbv zeta in *.
    assert (Hin1 : in_step home c1).
    { unfold in_step. rewrite Hspc1, Hmin1.
      pose proof (newTimeInMinutes_of_day_range t Ht) as HM.
      destruct (Z.eq_dec (newTimeInMinutes t) (m_LastMinutes c)) as [E|E].
      - rewrite (Hsame E), E. repeat split; try assumption; try lia.
      - pose proof (Hmoved E) as Hst.
        repeat split; try assumption; try lia.
        destruct Hst as [k Hk]. destruct Hsync as [k1 Hk1].
        destruct Hstored as [k2 Hk2]. destruct Hshaft as [k3 Hk3].
        exists (k1 + k3 - k2 + k). lia. }
    destruct (IH c1 Hin1) as (c' & Hrun & Hin' & Hlast).
    exists c'. split; [cbn [UpdateClock_all]; rewrite Hrun1; exact Hrun|].
    split; [exact Hin'|]. intros _.
    destruct times as [|t2 rest].
    + cbn [UpdateClock_all] in Hrun. assert (c' = c1) by congruence. subst c'.
      exact Hmin1.
    + rewrite Hlast by congruence. reflexivity.
Qed.

Lemma UpdateClock_all_keeps_in_step_witness :
  exists c,
    standard_clock = Some c /\
    in_step 0 c /\ Forall valid_time [at_06_01; at_00_02; at_11_59] /\
    exists c',
      UpdateClock_all [at_06_01; at_00_02; at_11_59] c = Some c' /\
      in_step 0 c' /\
      ([at_06_01; at_00_02; at_11_59] <> [] ->
       m_LastMinutes c' = newTimeInMinutes (last [at_06_01; at_00_02; at_11_59] at_00_00)).
Proof.
  eexists. split; [reflexivity|].
  match goal with
  | |- ?A /\ ?B /\ _ =>
      assert (Ha : A)
        by (unfold in_step;
            cbn [m_StepsPerCycle m_LastMinutes m_LastStepperPos board shaft];
            repeat split; try (vm_compute; intuition discriminate);
            exists 0; vm_compute; reflexivity);
      assert (Hb : B)
        by (repeat (apply Forall_cons;
                    [unfold valid_time, at_06_01, at_00_02, at_11_59;
                     cbn [tm_hour tm_min]; lia|]);
            apply Forall_nil)
  end.
  split; [exact Ha|]. split; [exact Hb|].
  exact (UpdateClock_all_keeps_in_step 0 _ _ Ha Hb).
Defined.

Lemma Home_success_fields home_pin_high c c' :
  Home home_pin_high c = Some (StatusSuccess, c') ->
  m_LastStepperPos c' = 0 /\ m_LastMinutes c' = 0.
Proof.
  unfold Home.
  destruct (home_loop _ false _ _ _ _ _ _) as [r1|]; [|discriminate].
  cbn [bind]. destruct (fst r1 >=? _); [discriminate|].
  destruct (home_loop _ true _ _ _ _ _ _) as [r2|]; [|discriminate].
  cbn [bind]. destruct (fst r2 >=? _); [discriminate|].
  destruct (home_loop _ false _ _ _ _ _ _) as [r3|]; [|discriminate].
  cbn [bind]. destruct (fst r3 >=? _); [discriminate|].
  intros H. injection H as <-. split; reflexivity.
Qed.

(** X17.  A successful [Home] puts the clock in step, with the position
    where the shaft then stands as 12:00 (for a cycle of at most 2982616
    steps).  With the property before: after a successful [Home], any run of
    updates for times of day leaves the shaft at the target of the last
    time, up to whole cycles. *)
Theorem Home_success_puts_in_step home_pin_high c c' :
  0 < m_StepsPerCycle c <= 2982616 ->
  Home home_pin_high c = Some (StatusSuccess, c') ->
  in_step (shaft (board c')) c'.
Proof.
  intros Hspc Hhome.
  destruct (Home_success_fields _ _ _ Hhome) as [Hp Hm].
  destruct (Home_keeps_steps _ _ _ _ Hhome) as [Hs _].
  unfold in_step. rewrite Hp, Hm, Hs.
  assert (HT : newMotorPos (m_StepsPerCycle c) 0 = 0) by reflexivity.
  rewrite HT. repeat split; try lia; exists 0; lia.
Qed.

Lemma Home_success_puts_in_step_witness :
  exists c c',
    standard_clock = Some c /\
    0 < m_StepsPerCycle c <= 2982616 /\
    Home (sensor_low_on 3 5) c = Some (StatusSuccess, c') /\
    in_step (shaft (board c')) c'.
Proof.
  do 2 eexists. split; [reflexivity|].
  match goal with
  | |- ?A /\ Home _ ?c = _ /\ _ =>
      assert (Ha : A) by (cbn [m_StepsPerCycle]; vm_compute; intuition discriminate);
      assert (Hb : Home (sensor_low_on 3 5) c = Some (StatusSuccess, _))
        by (lazy; reflexivity)
  end.
  split; [exact Ha|]. split; [exact Hb|].
  exact (Home_success_puts_in_step (sensor_low_on 3 5) _ _ Ha Hb).
Defined.

(** ** What a homing run does *)

Lemma repeat_app_cons {A : Type} (x : A) (n : nat) (l : list A) :
  repeat x n ++ x :: l = x :: repeat x n ++ l.
Proof. induction n as [|n IH]; cbn; [reflexivity | rewrite IH; reflexivity]. Qed.

(** What a loop of [Home] that has returned did: it made [n] single steps,
    never beyond its limit, after [n] readings equal to [while_home]; if it
    stopped short of the limit, the last reading was the other one. *)
Lemma home_loop_result home_pin_high while_home steps speed limit :
  steps = STEP_CW \/ steps = STEP_CCW ->
  forall (fuel : nat) (i : Z) (b : GenericClockBoard) i' b',
    home_loop home_pin_high while_home steps speed limit fuel i b = Some (i', b') ->
    exists n : nat,
      i' = i + Z.of_nat n /\ (n = O \/ i' <= limit) /\
      step_calls b' = repeat (steps, speed) n ++ step_calls b /\
      shaft b' = shaft b + steps * Z.of_nat n /\
      cfg b' = cfg b /\
      (i' < limit ->
       home_active home_pin_high (m_InvertHome (cfg b))
                   (home_reads b + n)%nat (shaft b') = negb while_home) /\
      (forall j, (j < n)%nat ->
         home_active home_pin_high (m_InvertHome (cfg b))
                     (home_reads b + j)%nat (shaft b + steps * Z.of_nat j)
         = while_home).
Proof.
  intros Hsteps. induction fuel as [|fuel IH]; intros i b i' b' H; [discriminate|].
  cbn [home_loop IsHome] in H.
  destruct (Bool.eqb (xorb (home_pin_high (home_reads b) (shaft b))
                           (m_InvertHome (cfg b))) while_home) eqn:Hread;
    destruct (Z.ltb_spec i limit) as [Hlt|Hge]; cbn [andb] in H.
  - match type of H with
    | home_loop _ _ _ _ _ _ _ (Step steps speed ?b1) = _ =>
        destruct (Step_unit steps speed b1 Hsteps) as (Hc & Hr & Hsh);
        destruct (Step_frame steps speed b1) as (_ & _ & Hcalls)
    end.
    apply IH in H. destruct H as (n & Hi & Hlim & Hcs & Hshaft & Hcfg & Hlast & Hpolls).
    cbn [cfg home_reads shaft step_calls] in *.
    rewrite Hc, Hr, Hsh, Hcalls in *. cbn [cfg home_reads shaft step_calls] in *.
    exists (S n). split; [lia|]. split; [right; lia|].
    split; [rewrite Hcs; cbn [repeat]; apply repeat_app_cons|].
    split; [lia|]. split; [exact Hcfg|]. split.
    + intros Hshort.
      replace (home_reads b + S n)%nat with (S (home_reads b) + n)%nat by lia.
      apply Hlast, Hshort.
    + intros j Hj. destruct j as [|j].
      * replace (home_reads b + 0)%nat with (home_reads b) by lia.
        replace (shaft b + steps * Z.of_nat 0) with (shaft b) by lia.
        unfold home_active. apply Bool.eqb_prop. exact Hread.
      * replace (home_reads b + S j)%nat with (S (home_reads b) + j)%nat by lia.
        replace (shaft b + steps * Z.of_nat (S j))
          with (shaft b + steps + steps * Z.of_nat j) by lia.
        apply Hpolls. lia.
  - injection H as <- <-. exists O. cbn [cfg shaft step_calls repeat app].
    repeat split; lia.
  - injection H as <- <-. exists O. cbn [cfg shaft step_calls repeat app].
    split; [lia|]. split; [left; reflexivity|]. split; [reflexivity|].
    split; [lia|]. split; [reflexivity|]. split; [|intros j Hj; lia].
    intros _. replace (home_reads b + 0)%nat with (home_reads b) by lia.
    unfold home_active. apply Bool.eqb_false_iff in Hread.
    destruct (xorb _ _), while_home; try reflexivity; contradiction Hread; reflexivity.
  - injection H as <- <-. exists O. cbn [cfg shaft step_calls repeat app].
    repeat split; lia.
Qed.

(** X18.  Every call of [Step] that [Home] makes is a single step, and they
    come in three runs: [n1] clockwise at StepFast, then [n2]
    counter-clockwise at StepFast, then [n3] clockwise at StepSlow.  No run
    is longer than its budget ([MAX_STEPS], [m_StepsPerHour],
    [m_StepsPerHour]), and the status tells which budget was used up: a
    phase error means that run reached its budget and no later run was
    started; success means every run stopped short of its budget. *)
Theorem Home_steps_within_budget home_pin_high c st c' :
  0 <= m_StepsPerHour c ->
  Home home_pin_high c = Some (st, c') ->
  exists n1 n2 n3 : nat,
    step_calls (board c') =
      repeat (STEP_CW, StepSlow) n3 ++ repeat (STEP_CCW, StepFast) n2
      ++ repeat (STEP_CW, StepFast) n1 ++ step_calls (board c) /\
    shaft (board c') = shaft (board c) + Z.of_nat n1 - Z.of_nat n2 + Z.of_nat n3 /\
    match st with
    | StatusHomePhase1Error =>
        Z.of_nat n1 = MAX_STEPS_of c /\ n2 = O /\ n3 = O
    | StatusHomePhase2Error =>
        Z.of_nat n1 < MAX_STEPS_of c /\ Z.of_nat n2 = m_StepsPerHour c /\ n3 = O
    | StatusHomePhase3Error =>
        Z.of_nat n1 < MAX_STEPS_of c /\ Z.of_nat n2 < m_StepsPerHour c /\
        Z.of_nat n3 = m_StepsPerHour c
    | StatusSuccess =>
        Z.of_nat n1 < MAX_STEPS_of c /\ Z.of_nat n2 < m_StepsPerHour c /\
        Z.of_nat n3 < m_StepsPerHour c
    end.
Proof.
  intros Hsph Hhome.
  assert (Hmax : 0 <= MAX_STEPS_of c)
    by (unfold MAX_STEPS_of, to_uint32; apply Z.mod_pos_bound; lia).
  unfold Home in Hhome. cbv zeta in Hhome.
  destruct (home_loop _ false _ _ _ _ _ _) as [[i1 b1]|] eqn:H1; [|discriminate].
  apply (home_loop_result _ _ _ _ _ (or_introl eq_refl)) in H1.
  destruct H1 as (n1 & Hi1 & Hl1 & Hc1 & Hs1 & _).
  cbn [bind fst snd] in Hhome.
  destruct (Z.geb_spec i1 (MAX_STEPS_of c)) as [Hge1|Hlt1].
  { injection Hhome as <- <-. exists n1, O, O. cbn [set_board board repeat app].
    unfold STEP_CW in *. split; [exact Hc1|]. split; [lia|]. lia. }
  destruct (home_loop _ true _ _ _ _ _ _) as [[i2 b2]|] eqn:H2; [|discriminate].
  apply (home_loop_result _ _ _ _ _ (or_intror eq_refl)) in H2.
  destruct H2 as (n2 & Hi2 & Hl2 & Hc2 & Hs2 & _).
  cbn [bind fst snd] in Hhome.
  destruct (Z.geb_spec i2 (m_StepsPerHour c)) as [Hge2|Hlt2].
  { injection Hhome as <- <-. exists n1, n2, O. cbn [set_board board repeat app].
    unfold STEP_CW, STEP_CCW in *. split; [rewrite Hc2, Hc1; reflexivity|].
    split; [lia|]. lia. }
  destruct (home_loop _ false _ _ _ _ _ _) as [[i3 b3]|] eqn:H3; [|discriminate].
  apply (home_loop_result _ _ _ _ _ (or_introl eq_refl)) in H3.
  destruct H3 as (n3 & Hi3 & Hl3 & Hc3 & Hs3 & _).
  cbn [bind fst snd] in Hhome.
  destruct (Z.geb_spec i3 (m_StepsPerHour c)) as [Hge3|Hlt3].
  { injection Hhome as <- <-. exists n1, n2, n3. cbn [set_board board].
    unfold STEP_CW, STEP_CCW in *. split; [rewrite Hc3, Hc2, Hc1; reflexivity|].
    split; [lia|]. lia. }
  injection Hhome as <- <-. exists n1, n2, n3. cbn [board].
  unfold STEP_CW, STEP_CCW in *. split; [rewrite Hc3, Hc2, Hc1; reflexivity|].
  split; [lia|]. lia.
Qed.

Lemma Home_steps_within_budget_witness :
  exists c c',
    standard_clock = Some c /\ 0 <= m_StepsPerHour c /\
    Home (sensor_low_on 3 5) c = Some (StatusSuccess, c') /\
    exists n1 n2 n3 : nat,
      step_calls (board c') =
        repeat (STEP_CW, StepSlow) n3 ++ repeat (STEP_CCW, StepFast) n2
        ++ repeat (STEP_CW, StepFast) n1 ++ step_calls (board c) /\
      shaft (board c') = shaft (board c) + Z.of_nat n1 - Z.of_nat n2 + Z.of_nat n3 /\
      Z.of_nat n1 < MAX_STEPS_of c /\ Z.of_nat n2 < m_StepsPerHour c /\
      Z.of_nat n3 < m_StepsPerHour c.
Proof.
  do 2 eexists. split; [reflexivity|].
  match goal with
  | |- ?A /\ Home _ ?c = _ /\ _ =>
      assert (Ha : A) by (cbn [m_StepsPerHour]; vm_compute; discriminate);
      assert (Hb : Home (sensor_low_on 3 5) c = Some (StatusSuccess, _))
        by (lazy; reflexivity)
  end.
  split; [exact Ha|]. split; [exact Hb|].
  exact (Home_steps_within_budget (sensor_low_on 3 5) _ _ _ Ha Hb).
Defined.

(** X19.  With a home sensor that depends on the shaft position alone, a
    successful [Home] has ended with a clockwise step at StepSlow, and the
    shaft stands on the counter-clockwise edge of the sensor: the sensor is
    active where the shaft stands and inactive one step before. *)
Theorem Home_success_ends_on_edge home_pin_high c c' :
  (forall r1 r2 p, home_pin_high r1 p = home_pin_high r2 p) ->
  Home home_pin_high c = Some (StatusSuccess, c') ->
  hd_error (step_calls (board c')) = Some (STEP_CW, StepSlow) /\
  home_active home_pin_high (m_InvertHome (cfg (board c))) O (shaft (board c')) = true /\
  home_active home_pin_high (m_InvertHome (cfg (board c))) O (shaft (board c') - 1) = false.
Proof.
  intros Hpos Hhome.
  assert (Hany : forall inv r p,
            home_active home_pin_high inv r p = home_active home_pin_high inv O p).
  { intros inv r p. unfold home_active. rewrite (Hpos r O p). reflexivity. }
  unfold Home in Hhome. cbv zeta in Hhome.
  destruct (home_loop _ false _ _ _ _ _ _) as [[i1 b1]|] eqn:H1; [|discriminate].
  apply (home_loop_result _ _ _ _ _ (or_introl eq_refl)) in H1.
  destruct H1 as (n1 & _ & _ & _ & _ & Hcfg1 & _).
  cbn [bind fst snd] in Hhome.
  destruct (i1 >=? MAX_STEPS_of c); [discriminate|].
  destruct (home_loop _ true _ _ _ _ _ _) as [[i2 b2]|] eqn:H2; [|discriminate].
  apply (home_loop_result _ _ _ _ _ (or_intror eq_refl)) in H2.
  destruct H2 as (n2 & _ & _ & _ & _ & Hcfg2 & Hlast2 & _).
  cbn [bind fst snd] in Hhome.
  destruct (Z.geb_spec i2 (m_StepsPerHour c)) as [|Hlt2]; [discriminate|].
  destruct (home_loop _ false _ _ _ _ _ _) as [[i3 b3]|] eqn:H3; [|discriminate].
  apply (home_loop_result _ _ _ _ _ (or_introl eq_refl)) in H3.
  destruct H3 as (n3 & _ & _ & Hc3 & Hs3 & Hcfg3 & Hlast3 & Hpolls3).
  cbn [bind fst snd] in Hhome.
  destruct (Z.geb_spec i3 (m_StepsPerHour c)) as [|Hlt3]; [discriminate|].
  injection Hhome as <-. cbn [board].
  specialize (Hlast2 Hlt2). specialize (Hlast3 Hlt3).
  rewrite Hany in Hlast2, Hlast3. cbn [negb] in Hlast2, Hlast3.
  rewrite Hcfg2, Hcfg1 in Hlast3. rewrite Hcfg1 in Hlast2.
  destruct n3 as [|m].
  - rewrite Hs3 in Hlast3. replace (shaft b2 + STEP_CW * Z.of_nat 0) with (shaft b2) in Hlast3 by lia.
    congruence.
  - split; [rewrite Hc3; reflexivity|]. split; [exact Hlast3|].
    pose proof (Hpolls3 m ltac:(lia)) as Hbefore.
    rewrite Hany, Hcfg2, Hcfg1 in Hbefore.
    replace (shaft b3 - 1) with (shaft b2 + STEP_CW * Z.of_nat m)
      by (rewrite Hs3; unfold STEP_CW; lia).
    exact Hbefore.
Qed.

Lemma Home_success_ends_on_edge_witness :
  exists c c',
    standard_clock = Some c /\
    (forall r1 r2 p, sensor_low_on 3 5 r1 p = sensor_low_on 3 5 r2 p) /\
    Home (sensor_low_on 3 5) c = Some (StatusSuccess, c') /\
    hd_error (step_calls (board c')) = Some (STEP_CW, StepSlow) /\
    home_active (sensor_low_on 3 5) (m_InvertHome (cfg (board c))) O
                (shaft (board c')) = true /\
    home_active (sensor_low_on 3 5) (m_InvertHome (cfg (board c))) O
                (shaft (board c') - 1) = false.
Proof.
  do 2 eexists. split; [reflexivity|].
  match goal with
  | |- ?A /\ Home _ ?c = _ /\ _ =>
      assert (Ha : A) by reflexivity;
      assert (Hb : Home (sensor_low_on 3 5) c = Some (StatusSuccess, _))
        by (lazy; reflexivity)
  end.
  split; [exact Ha|]. split; [exact Hb|].
  exact (Home_success_ends_on_edge (sensor_low_on 3 5) _ _ Ha Hb).
Defined.

(** X20.  A home sensor stuck active (every reading active) makes [Home]
    skip phase 1, back off the whole phase-2 budget of [m_StepsPerHour]
    steps, and return StatusHomePhase2Error with the shaft left that far
    counter-clockwise of where it started. *)
Theorem Home_sensor_stuck_active home_pin_high c :
  0 < MAX_STEPS_of c -> 0 <= m_StepsPerHour c ->
  (forall r p, home_active home_pin_high (m_InvertHome (cfg (board c))) r p = true) ->
  exists c',
    Home home_pin_high c = Some (StatusHomePhase2Error, c') /\
    shaft (board c') = shaft (board c) - m_StepsPerHour c /\
    step_calls (board c') =
      repeat (STEP_CCW, StepFast) (Z.to_nat (m_StepsPerHour c))
      ++ step_calls (board c).
Proof.
  intros Hmax Hsph Hactive.
  destruct (home_loop_run home_pin_high false STEP_CW StepFast (MAX_STEPS_of c)
              (or_introl eq_refl) O (loop_fuel (MAX_STEPS_of c)) 0 (board c))
    as (b1 & Hrun1 & Hc1 & Hsh1 & _).
  { unfold loop_fuel. lia. }
  { lia. }
  { intros j Hj. lia. }
  { right. apply Hactive. }
  destruct (home_loop_run home_pin_high true STEP_CCW StepFast (m_StepsPerHour c)
              (or_intror eq_refl) (Z.to_nat (m_StepsPerHour c))
              (loop_fuel (m_StepsPerHour c)) 0 b1)
    as (b2 & Hrun2 & Hc2 & Hsh2 & _).
  { unfold loop_fuel. lia. }
  { lia. }
  { intros j Hj. rewrite Hc1. apply Hactive. }
  { left. lia. }
  pose proof Hrun1 as Hres1. pose proof Hrun2 as Hres2.
  apply (home_loop_result _ _ _ _ _ (or_introl eq_refl)) in Hres1.
  apply (home_loop_result _ _ _ _ _ (or_intror eq_refl)) in Hres2.
  destruct Hres1 as (n1 & Hi1 & _ & Hcalls1 & _).
  destruct Hres2 as (n2 & Hi2 & _ & Hcalls2 & _).
  assert (n1 = O) by lia. assert (n2 = Z.to_nat (m_StepsPerHour c)) by lia.
  subst n1 n2. cbn [repeat app] in Hcalls1.
  unfold Home. cbv zeta. rewrite Hrun1. cbn [bind fst snd].
  destruct (Z.geb_spec (0 + Z.of_nat 0) (MAX_STEPS_of c)); [lia|].
  rewrite Hrun2. cbn [bind fst snd].
  destruct (Z.geb_spec (0 + Z.of_nat (Z.to_nat (m_StepsPerHour c))) (m_StepsPerHour c));
    [|lia].
  eexists. split; [reflexivity|]. cbn [set_board board].
  rewrite Hsh2, Hsh1, Hcalls2, Hcalls1. unfold STEP_CW, STEP_CCW.
  split; [lia | reflexivity].
Qed.

Lemma Home_sensor_stuck_active_witness :
  exists c,
    standard_clock = Some c /\
    0 < MAX_STEPS_of c /\ 0 <= m_StepsPerHour c /\
    (forall r p, home_active (fun _ _ => false) (m_InvertHome (cfg (board c))) r p = true) /\
    exists c',
      Home (fun _ _ => false) c = Some (StatusHomePhase2Error, c') /\
      shaft (board c') = shaft (board c) - m_StepsPerHour c /\
      step_calls (board c') =
        repeat (STEP_CCW, StepFast) (Z.to_nat (m_StepsPerHour c))
        ++ step_calls (board c).
Proof.
  eexists. split; [reflexivity|].
  match goal with
  | |- ?A /\ ?B /\ ?C /\ _ =>
      assert (Ha : A) by (vm_compute; reflexivity);
      assert (Hb : B) by (cbn [m_StepsPerHour]; vm_compute; discriminate);
      assert (Hc : C) by (intros r p; reflexivity)
  end.
  split; [exact Ha|]. split; [exact Hb|]. split; [exact Hc|].
  exact (Home_sensor_stuck_active (fun _ _ => false) _ Ha Hb Hc).
Defined.

(** X21.  A home sensor that never reads active makes [Home] step the whole
    phase-1 budget of [MAX_STEPS] clockwise steps at StepFast and nothing
    else, and return StatusHomePhase1Error. *)
Theorem Home_sensor_never_active home_pin_high c :
  (forall r p, home_active home_pin_high (m_InvertHome (cfg (board c))) r p = false) ->
  exists c',
    Home home_pin_high c = Some (StatusHomePhase1Error, c') /\
    shaft (board c') = shaft (board c) + MAX_STEPS_of c /\
    step_calls (board c') =
      repeat (STEP_CW, StepFast) (Z.to_nat (MAX_STEPS_of c)) ++ step_calls (board c).
Proof.
  intros Hnever.
  assert (Hmax : 0 <= MAX_STEPS_of c)
    by (unfold MAX_STEPS_of, to_uint32; apply Z.mod_pos_bound; lia).
  destruct (home_loop_run home_pin_high false STEP_CW StepFast (MAX_STEPS_of c)
              (or_introl eq_refl) (Z.to_nat (MAX_STEPS_of c))
              (loop_fuel (MAX_STEPS_of c)) 0 (board c))
    as (b1 & Hrun1 & Hc1 & Hsh1 & _).
  { unfold loop_fuel. lia. }
  { lia. }
  { intros j Hj. apply Hnever. }
  { left. lia. }
  pose proof Hrun1 as Hres1.
  apply (home_loop_result _ _ _ _ _ (or_introl eq_refl)) in Hres1.
  destruct Hres1 as (n1 & Hi1 & _ & Hcalls1 & _).
  assert (n1 = Z.to_nat (MAX_STEPS_of c)) by lia. subst n1.
  unfold Home. cbv zeta. rewrite Hrun1. cbn [bind fst snd].
  destruct (Z.geb_spec (0 + Z.of_nat (Z.to_nat (MAX_STEPS_of c))) (MAX_STEPS_of c));
    [|lia].
  eexists. split; [reflexivity|]. cbn [set_board board].
  rewrite Hsh1, Hcalls1. unfold STEP_CW. split; [lia | reflexivity].
Qed.

Lemma Home_sensor_never_active_witness :
  exists c,
    standard_clock = Some c /\
    (forall r p, home_active (fun _ _ => true) (m_InvertHome (cfg (board c))) r p = false) /\
    exists c',
      Home (fun _ _ => true) c = Some (StatusHomePhase1Error, c') /\
      shaft (board c') = shaft (board c) + MAX_STEPS_of c /\
      step_calls (board c') =
        repeat (STEP_CW, StepFast) (Z.to_nat (MAX_STEPS_of c)) ++ step_calls (board c).
Proof.
  eexists. split; [reflexivity|].
  match goal with
  | |- ?A /\ _ => assert (Ha : A) by (intros r p; reflexivity)
  end.
  split; [exact Ha|].
  exact (Home_sensor_never_active (fun _ _ => true) _ Ha).
Defined.

(** * GenericClockBoard.h: IsButtonPressed, and GenevaClockMechanics.cpp: Calibrate *)

(** The clock together with what [Calibrate] needs of the outside world:
    the number of reads of the pushbutton made so far and the [delay] calls
    (milliseconds, newest first). *)
Record CalibrateWorld : Type := {
  cal_clock : GenevaClockMechanics;
  button_reads : nat;
  dwells : list Z
}.

Definition set_cal_clock (c : GenevaClockMechanics) (w : CalibrateWorld)
  : CalibrateWorld :=
  {| cal_clock := c; button_reads := button_reads w; dwells := dwells w |}.

(** [delay(ms)] *)
Definition delay (ms : Z) (w : CalibrateWorld) : CalibrateWorld :=
  {| cal_clock := cal_clock w; button_reads := button_reads w;
     dwells := ms :: dwells w |}.

Section Calibration.

(** The home input as before, and the pushbutton input: [true] when the
    read number [k] of the pin finds it LOW. *)
Variable home_pin_high : nat -> Z -> bool.
Variable button_pin_low : nat -> bool.

(** [digitalRead(PUSHBUTTON_PIN) == LOW] *)
Definition IsButtonPressed (w : CalibrateWorld) : bool * CalibrateWorld :=
  (button_pin_low (button_reads w),
   {| cal_clock := cal_clock w; button_reads := S (button_reads w);
      dwells := dwells w |}).

(** [Step(-m_StepsPerHour, StepFast)]: the negation is formed in
    [uint32_t] and converted to the [int32_t] parameter. *)
Definition step_back_one_hour (c : GenevaClockMechanics) : GenevaClockMechanics :=
  set_board (Step (to_int32 (to_uint32 (- m_StepsPerHour c))) StepFast (board c)) c.

(** [Calibrate]: the loop runs until a read of the button finds it pressed;
    [fuel] bounds the number of rounds of the model and [None] is returned
    when it is used up.  The status that [Home] returns is dropped. *)
Fixpoint Calibrate (fuel : nat) (w : CalibrateWorld) : option CalibrateWorld :=
  match fuel with
  | O => None
  | S fuel' =>
      let (pressed, w) := IsButtonPressed w in
      if pressed then Some w
      else
        do r <- Home home_pin_high (cal_clock w) ;;
        let w := set_cal_clock (snd r) w in
        let (pressed, w) := IsButtonPressed w in
        if pressed then Some w
        else
          let w := delay 10000 w in
          let (pressed, w) := IsButtonPressed w in
          if pressed then Some w
          else
            let w := set_cal_clock (step_back_one_hour (cal_clock w)) w in
            let (pressed, w) := IsButtonPressed w in
            if pressed then Some w
            else
              let w := delay 500 w in
              Calibrate fuel' w
  end.

End Calibration.

(** ** Properties of Calibrate *)

(** X22.  [Calibrate] returns once a read of the button finds it pressed: if
    the read number [k] (not yet made) is a pressed one, a run with
    [k + 1] rounds of fuel less the reads already made gives a result, no
    read after number [k] has been made, and the last read made found the
    button pressed. *)
Theorem Calibrate_returns_on_button home_pin_high button_pin_low :
  forall (fuel : nat) (w : CalibrateWorld) (k : nat),
    (button_reads w <= k < button_reads w + fuel)%nat ->
    button_pin_low k = true ->
    exists w',
      Calibrate home_pin_high button_pin_low fuel w = Some w' /\
      (button_reads w < button_reads w' <= k + 1)%nat /\
      button_pin_low (pred (button_reads w')) = true.
Proof.
  induction fuel as [|fuel IH]; intros w k Hk Hpressed; [lia|].
  cbn [Calibrate IsButtonPressed].
  destruct (button_pin_low (button_reads w)) eqn:P0.
  { eexists. split; [reflexivity|]. cbn [button_reads pred]. split; [lia | exact P0]. }
  assert (k <> button_reads w) by congruence.
  destruct (Home_total home_pin_high (cal_clock w)) as (st & c1 & Hhome).
  cbn [cal_clock]. rewrite Hhome. cbn [bind snd set_cal_clock button_reads dwells cal_clock].
  destruct (button_pin_low (S (button_reads w))) eqn:P1.
  { eexists. split; [reflexivity|]. cbn [button_reads pred]. split; [lia | exact P1]. }
  assert (k <> S (button_reads w)) by congruence.
  cbn [delay button_reads dwells cal_clock].
  destruct (button_pin_low (S (S (button_reads w)))) eqn:P2.
  { eexists. split; [reflexivity|]. cbn [button_reads pred]. split; [lia | exact P2]. }
  assert (k <> S (S (button_reads w))) by congruence.
  destruct (button_pin_low (S (S (S (button_reads w))))) eqn:P3.
  { eexists. split; [reflexivity|]. cbn [button_reads pred]. split; [lia | exact P3]. }
  assert (k <> S (S (S (button_reads w)))) by congruence.
  match goal with
  | |- exists w', Calibrate _ _ fuel ?w1 = _ /\ _ =>
      destruct (IH w1 k) as (w' & Hrun & Hreads & Hlast);
        [cbn [button_reads delay]; lia | exact Hpressed |]
  end.
  exists w'. split; [exact Hrun|]. cbn [button_reads delay] in Hreads.
  split; [lia | exact Hlast].
Qed.

Lemma Calibrate_returns_on_button_witness :
  exists c,
    standard_clock = Some c /\
    (button_reads {| cal_clock := c; button_reads := 0; dwells := [] |} <= 6
     < button_reads {| cal_clock := c; button_reads := 0; dwells := [] |} + 7)%nat /\
    Nat.eqb 6 6 = true /\
    exists w',
      Calibrate (sensor_low_on 3 5) (fun k => Nat.eqb k 6) 7
        {| cal_clock := c; button_reads := 0; dwells := [] |} = Some w' /\
      (button_reads {| cal_clock := c; button_reads := 0; dwells := [] |}
       < button_reads w' <= 6 + 1)%nat /\
      Nat.eqb (pred (button_reads w')) 6 = true.
Proof.
  eexists. split; [reflexivity|].
  match goal with
  | |- ?A /\ ?B /\ _ =>
      assert (Ha : A) by (cbn [button_reads]; lia);
      assert (Hb : B) by reflexivity
  end.
  split; [exact Ha|]. split; [exact Hb|].
  exact (Calibrate_returns_on_button (sensor_low_on 3 5) (fun k => Nat.eqb k 6)
           7 _ 6%nat Ha Hb).
Defined.

Lemma negated_hour_steps sph :
  0 <= sph <= INT32_MAX -> to_int32 (to_uint32 (- sph)) = - sph.
Proof.
  unfold INT32_MAX. intros H. destruct (Z.eq_dec sph 0) as [->|Hnz]; [reflexivity|].
  unfold to_uint32.
  replace (- sph) with (4294967296 - sph + (-1) * 4294967296) by lia.
  rewrite Z_mod_plus_full, Z.mod_small by lia.
  unfold to_int32.
  replace (4294967296 - sph + 2147483648)
    with (2147483648 - sph + 1 * 4294967296) by lia.
  rewrite Z_mod_plus_full, Z.mod_small by lia. lia.
Qed.

(** X23.  A round of [Calibrate] does not look at the status of [Home]:
    whatever [Home] returned, if the button is not pressed at the first
    three reads of the round, the shaft is stepped back [m_StepsPerHour]
    steps at StepFast after a dwell of 10000 ms.  When the button is then
    found pressed, [Calibrate] returns with the position fields as [Home]
    left them, so after a successful [Home] the stored position is 0 while
    the shaft stands one hour before the home position. *)
Theorem Calibrate_round_steps_back home_pin_high button_pin_low fuel w st c1 :
  Home home_pin_high (cal_clock w) = Some (st, c1) ->
  0 <= m_StepsPerHour (cal_clock w) <= INT32_MAX ->
  button_pin_low (button_reads w) = false ->
  button_pin_low (S (button_reads w)) = false ->
  button_pin_low (S (S (button_reads w))) = false ->
  button_pin_low (S (S (S (button_reads w)))) = true ->
  exists w',
    Calibrate home_pin_high button_pin_low (S fuel) w = Some w' /\
    shaft (board (cal_clock w'))
    = shaft (board c1) - m_StepsPerHour (cal_clock w) /\
    hd_error (step_calls (board (cal_clock w')))
    = Some (- m_StepsPerHour (cal_clock w), StepFast) /\
    m_LastStepperPos (cal_clock w') = m_LastStepperPos c1 /\
    m_LastMinutes (cal_clock w') = m_LastMinutes c1 /\
    dwells w' = 10000 :: dwells w.
Proof.
  intros Hhome Hsph P0 P1 P2 P3.
  destruct (Home_keeps_steps _ _ _ _ Hhome) as [_ Hsph1].
  cbn [Calibrate IsButtonPressed]. rewrite P0. cbn [cal_clock].
  rewrite Hhome. cbn [bind snd set_cal_clock button_reads dwells cal_clock].
  rewrite P1. cbn [delay button_reads dwells cal_clock]. rewrite P2, P3.
  eexists. split; [reflexivity|].
  cbn [cal_clock dwells]. unfold step_back_one_hour.
  cbn [set_board board m_LastStepperPos m_LastMinutes].
  rewrite Hsph1, negated_hour_steps by assumption.
  destruct (Step_frame (- m_StepsPerHour (cal_clock w)) StepFast (board c1))
    as (_ & _ & Hcalls).
  rewrite Hcalls, Step_shaft, Step_rounds_signed
    by (unfold INT32_MIN, INT32_MAX in *; lia).
  repeat split; reflexivity || lia.
Qed.

Lemma Calibrate_round_steps_back_witness :
  exists c c1,
    standard_clock = Some c /\
    Home (sensor_low_on 3 5)
         (cal_clock {| cal_clock := c; button_reads := 0; dwells := [] |})
    = Some (StatusSuccess, c1) /\
    0 <= m_StepsPerHour (cal_clock {| cal_clock := c; button_reads := 0; dwells := [] |})
      <= INT32_MAX /\
    Nat.eqb 0 3 = false /\ Nat.eqb 1 3 = false /\ Nat.eqb 2 3 = false /\
    Nat.eqb 3 3 = true /\
    exists w',
      Calibrate (sensor_low_on 3 5) (fun k => Nat.eqb k 3) 1
        {| cal_clock := c; button_reads := 0; dwells := [] |} = Some w' /\
      shaft (board (cal_clock w')) = shaft (board c1) - m_StepsPerHour c /\
      hd_error (step_calls (board (cal_clock w')))
      = Some (- m_StepsPerHour c, StepFast) /\
      m_LastStepperPos (cal_clock w') = m_LastStepperPos c1 /\
      m_LastMinutes (cal_clock w') = m_LastMinutes c1 /\
      dwells w' = [10000].
Proof.
  do 2 eexists. split; [reflexivity|].
  match goal with
  | |- Home _ ?c = _ /\ ?B /\ _ =>
      assert (Ha : Home (sensor_low_on 3 5) c = Some (StatusSuccess, _))
        by (lazy; reflexivity);
      assert (Hb : B)
        by (cbn [cal_clock m_StepsPerHour]; vm_compute; intuition discriminate)
  end.
  split; [exact Ha|]. split; [exact Hb|].
  do 4 (split; [reflexivity|]).
  exact (Calibrate_round_steps_back (sensor_low_on 3 5) (fun k => Nat.eqb k 3) O
           _ _ _ Ha Hb eq_refl eq_refl eq_refl eq_refl).
Defined.

Lemma Home_position_cases home_pin_high c st c' :
  Home home_pin_high c = Some (st, c') ->
  (m_LastStepperPos c' = m_LastStepperPos c /\ m_LastMinutes c' = m_LastMinutes c)
  \/ (m_LastStepperPos c' = 0 /\ m_LastMinutes c' = 0).
Proof.
  unfold Home.
  destruct (home_loop _ false _ _ _ _ _ _) as [r1|]; [|discriminate].
  cbn [bind]. destruct (fst r1 >=? _);
    [intros H; injection H as <- <-; left; split; reflexivity|].
  destruct (home_loop _ true _ _ _ _ _ _) as [r2|]; [|discriminate].
  cbn [bind]. destruct (fst r2 >=? _);
    [intros H; injection H as <- <-; left; split; reflexivity|].
  destruct (home_loop _ false _ _ _ _ _ _) as [r3|]; [|discriminate].
  cbn [bind]. destruct (fst r3 >=? _);
    intros H; injection H as <- <-; [left | right]; split; reflexivity.
Qed.

(** X24.  [Calibrate] writes the position fields through [Home] alone: when
    it returns, the step counts per hour and per cycle are unchanged, and
    [m_LastStepperPos] and [m_LastMinutes] either are as they were or are
    both 0, however far the shaft has been stepped back. *)
Theorem Calibrate_position_fields home_pin_high button_pin_low :
  forall (fuel : nat) (w w' : CalibrateWorld),
    Calibrate home_pin_high button_pin_low fuel w = Some w' ->
    m_StepsPerCycle (cal_clock w') = m_StepsPerCycle (cal_clock w) /\
    m_StepsPerHour (cal_clock w') = m_StepsPerHour (cal_clock w) /\
    ((m_LastStepperPos (cal_clock w') = m_LastStepperPos (cal_clock w) /\
      m_LastMinutes (cal_clock w') = m_LastMinutes (cal_clock w))
     \/ (m_LastStepperPos (cal_clock w') = 0 /\ m_LastMinutes (cal_clock w') = 0)).
Proof.
  induction fuel as [|fuel IH]; intros w w' Hrun; [discriminate|].
  cbn [Calibrate IsButtonPressed] in Hrun.
  destruct (button_pin_low (button_reads w)).
  { injection Hrun as <-. cbn [cal_clock]. auto. }
  cbn [cal_clock] in Hrun.
  destruct (Home home_pin_high (cal_clock w)) as [[st c1]|] eqn:Hhome; [|discriminate].
  destruct (Home_keeps_steps _ _ _ _ Hhome) as [Hspc Hsph].
  pose proof (Home_position_cases _ _ _ _ Hhome) as Hcases.
  cbn [bind snd set_cal_clock button_reads dwells cal_clock] in Hrun.
  destruct (button_pin_low (S (button_reads w))).
  { injection Hrun as <-. cbn [cal_clock]. auto. }
  cbn [delay button_reads dwells cal_clock] in Hrun.
  destruct (button_pin_low (S (S (button_reads w)))).
  { injection Hrun as <-. cbn [cal_clock]. auto. }
  destruct (button_pin_low (S (S (S (button_reads w))))).
  { injection Hrun as <-. cbn [cal_clock]. unfold step_back_one_hour.
    cbn [set_board m_StepsPerCycle m_StepsPerHour m_LastStepperPos m_LastMinutes].
    auto. }
  apply IH in Hrun. cbn [cal_clock delay] in Hrun. unfold step_back_one_hour in Hrun.
  cbn [set_board m_StepsPerCycle m_StepsPerHour m_LastStepperPos m_LastMinutes] in Hrun.
  destruct Hrun as (Hspc' & Hsph' & Hpos').
  split; [congruence|]. split; [congruence|].
  destruct Hpos' as [[Hp Hm] | [Hp Hm]]; [|right; auto].
  destruct Hcases as [[Hp1 Hm1] | [Hp1 Hm1]]; [left | right]; split; congruence.
Qed.

Lemma Calibrate_position_fields_witness :
  exists c w',
    standard_clock = Some c /\
    Calibrate (sensor_low_on 3 5) (fun k => Nat.eqb k 1) 1
      {| cal_clock := c; button_reads := 0; dwells := [] |} = Some w' /\
    m_StepsPerCycle (cal_clock w') = m_StepsPerCycle c /\
    m_StepsPerHour (cal_clock w') = m_StepsPerHour c /\
    ((m_LastStepperPos (cal_clock w') = m_LastStepperPos c /\
      m_LastMinutes (cal_clock w') = m_LastMinutes c)
     \/ (m_LastStepperPos (cal_clock w') = 0 /\ m_LastMinutes (cal_clock w') = 0)).
Proof.
  do 2 eexists. split; [reflexivity|].
  match goal with
  | |- Calibrate _ _ _ ?w = _ /\ _ =>
      assert (Ha : Calibrate (sensor_low_on 3 5) (fun k => Nat.eqb k 1) 1 w = Some _)
        by (lazy; reflexivity)
  end.
  split; [exact Ha|].
  exact (Calibrate_position_fields (sensor_low_on 3 5) (fun k => Nat.eqb k 1) 1 _ _ Ha).
Defined.

(** * What holds in every state the interface can reach *)

(** The driver at rest: the phase index inside a table of 4 or 8 phases, a
    configuration the constructor builds, and no stepper output asserted. *)
Definition board_idle (b : GenericClockBoard) : Prop :=
  phase_ok b /\ constructed b /\ pins_off b.

(** The clock at rest: the driver at rest, and the stored position zero or
    less than a cycle from zero. *)
Definition clock_ok (c : GenevaClockMechanics) : Prop :=
  board_idle (board c) /\ in_int32 (m_StepsPerCycle c) /\
  (m_LastStepperPos c = 0 \/
   Z.abs (m_LastStepperPos c) < Z.abs (m_StepsPerCycle c)).

(** The states of a clock object that its public methods can produce, with
    any home sensor and any pushbutton. *)
Inductive reachable : GenevaClockMechanics -> Prop :=
| reach_new rapid full reversed half no c :
    GenevaClockMechanics_ctor rapid full reversed half no = Some c ->
    reachable c
| reach_Step c steps speed :
    reachable c -> reachable (set_board (Step steps speed (board c)) c)
| reach_UpdateClock c t c' :
    reachable c -> UpdateClock t c = Some c' -> reachable c'
| reach_Home home_pin_high c st c' :
    reachable c -> Home home_pin_high c = Some (st, c') -> reachable c'
| reach_Calibrate home_pin_high button_pin_low fuel w w' :
    reachable (cal_clock w) ->
    Calibrate home_pin_high button_pin_low fuel w = Some w' ->
    reachable (cal_clock w').

Lemma to_int32_in_range z : in_int32 (to_int32 z).
Proof.
  unfold in_int32, INT32_MIN, INT32_MAX, to_int32.
  pose proof (Z.mod_pos_bound (z + 2147483648) 4294967296). lia.
Qed.

Lemma ctor_board_idle rapid full reversed half no b :
  GenericClockBoard_ctor rapid full reversed half no = Some b -> board_idle b.
Proof.
  intros Hc. destruct (constructed_phase_ok _ _ _ _ _ _ Hc) as [Hcon Hok].
  split; [exact Hok|]. split; [exact Hcon|].
  unfold GenericClockBoard_ctor in Hc.
  destruct (to_uint32 (full * (if half then 2 else 1)) =? 0); [discriminate|].
  apply (f_equal (fun o => match o with Some b0 => gpio_out b0 | None => 0 end)) in Hc.
  cbn [gpio_out] in Hc. intros pin _. rewrite <- Hc. apply Z.testbit_0_l.
Qed.

Lemma constructed_same_cfg b b' : cfg b' = cfg b -> constructed b -> constructed b'.
Proof.
  intros Hcfg (r & f & rv & h & no & b0 & Hctor & Hc0).
  exists r, f, rv, h, no, b0. split; [assumption | congruence].
Qed.

Lemma Step_keeps_idle steps speed b : board_idle b -> board_idle (Step steps speed b).
Proof.
  intros (Hok & Hcon & Hoff).
  destruct (Step_frame steps speed b) as (Hcfg & _).
  split; [apply Step_phase_ok; exact Hok|].
  split; [exact (constructed_same_cfg _ _ Hcfg Hcon)|].
  destruct (Z.eq_dec steps 0) as [->|Hnz].
  - rewrite Step_zero_eq. intros pin Hin. cbn in Hin |- *.
    apply ldiff_testbit_mask, mask_covers_pins; assumption.
  - rewrite Step_nonzero by assumption.
    assert (Hb0 : constructed (note_call steps speed b)) by exact Hcon.
    destruct (Step_rounds steps) as [|n] eqn:Hn.
    + cbn [for_upto]. exact Hoff.
    + match goal with
      | |- pins_off (for_upto ?k ?j (step_iteration ?sp ?st ?d ?a) ?b0) =>
          destruct (stepping_loop_gpio sp st d a k j b0 Hb0) as (Hoff' & _)
      end.
      apply Hoff'. congruence.
Qed.

Lemma home_loop_keeps_idle home_pin_high while_home steps speed limit :
  forall (fuel : nat) (i : Z) (b : GenericClockBoard) r,
    home_loop home_pin_high while_home steps speed limit fuel i b = Some r ->
    board_idle b -> board_idle (snd r).
Proof.
  induction fuel as [|fuel IH]; intros i b r H Hidle; [discriminate|].
  cbn [home_loop IsHome] in H.
  match type of H with
  | (if ?cond then _ else _) = _ => destruct cond
  end.
  - apply IH in H; [exact H|]. apply Step_keeps_idle. exact Hidle.
  - injection H as <-. exact Hidle.
Qed.

Lemma Home_keeps_idle home_pin_high c st c' :
  Home home_pin_high c = Some (st, c') ->
  board_idle (board c) -> board_idle (board c').
Proof.
  unfold Home. intros H Hidle.
  match type of H with
  | bind ?e _ = _ => destruct e as [r1|] eqn:H1; [|discriminate H]
  end.
  pose proof (home_loop_keeps_idle _ _ _ _ _ _ _ _ _ H1 Hidle) as Hidle1.
  cbn [bind] in H. destruct (fst r1 >=? _);
    [injection H as <- <-; exact Hidle1|].
  match type of H with
  | bind ?e _ = _ => destruct e as [r2|] eqn:H2; [|discriminate H]
  end.
  pose proof (home_loop_keeps_idle _ _ _ _ _ _ _ _ _ H2 Hidle1) as Hidle2.
  cbn [bind] in H. destruct (fst r2 >=? _);
    [injection H as <- <-; exact Hidle2|].
  match type of H with
  | bind ?e _ = _ => destruct e as [r3|] eqn:H3; [|discriminate H]
  end.
  pose proof (home_loop_keeps_idle _ _ _ _ _ _ _ _ _ H3 Hidle2) as Hidle3.
  cbn [bind] in H. destruct (fst r3 >=? _);
    injection H as <- <-; exact Hidle3.
Qed.

Lemma Home_keeps_ok home_pin_high c st c' :
  Home home_pin_high c = Some (st, c') -> clock_ok c -> clock_ok c'.
Proof.
  intros Hhome (Hidle & Hspc & Hpos).
  destruct (Home_keeps_steps _ _ _ _ Hhome) as [Hs _].
  split; [exact (Home_keeps_idle _ _ _ _ Hhome Hidle)|].
  rewrite Hs. split; [exact Hspc|].
  destruct (Home_position_cases _ _ _ _ Hhome) as [[Hp _] | [Hp _]];
    rewrite Hp; [exact Hpos | left; reflexivity].
Qed.

Lemma UpdateClock_keeps_ok t c c' :
  UpdateClock t c = Some c' -> clock_ok c -> clock_ok c'.
Proof.
  unfold UpdateClock. intros H (Hidle & Hspc & Hpos).
  destruct (newTimeInMinutes t =? m_LastMinutes c).
  - injection H as <-. split; [exact Hidle | split; assumption].
  - destruct (Z.eqb_spec (m_StepsPerCycle c) 0) as [|Hnz]; [discriminate H|].
    pose proof (f_equal (fun o => match o with Some c0 => board c0 | None => board c end) H) as Hb.
    pose proof (f_equal (fun o => match o with Some c0 => m_StepsPerCycle c0 | None => 0 end) H) as Hs.
    pose proof (f_equal (fun o => match o with Some c0 => m_LastStepperPos c0 | None => 0 end) H) as Hp.
    cbn [board m_StepsPerCycle m_LastStepperPos] in Hb, Hs, Hp.
    split; [rewrite <- Hb; apply Step_keeps_idle; exact Hidle|].
    rewrite <- Hs, <- Hp. split; [exact Hspc|]. right.
    match goal with
    | |- Z.abs (to_int32 (Z.rem ?x ?s)) < _ =>
        pose proof (Z.rem_bound_abs x s Hnz) as Hrem
    end.
    unfold in_int32, INT32_MIN, INT32_MAX in Hspc.
    rewrite to_int32_small by (unfold in_int32, INT32_MIN, INT32_MAX; lia).
    exact Hrem.
Qed.

Lemma Calibrate_keeps_ok home_pin_high button_pin_low :
  forall (fuel : nat) (w w' : CalibrateWorld),
    Calibrate home_pin_high button_pin_low fuel w = Some w' ->
    clock_ok (cal_clock w) -> clock_ok (cal_clock w').
Proof.
  induction fuel as [|fuel IH]; intros w w' Hrun Hok; [discriminate|].
  cbn [Calibrate IsButtonPressed] in Hrun.
  destruct (button_pin_low (button_reads w)).
  { injection Hrun as <-. exact Hok. }
  cbn [cal_clock] in Hrun.
  destruct (Home home_pin_high (cal_clock w)) as [[st c1]|] eqn:Hhome; [|discriminate].
  pose proof (Home_keeps_ok _ _ _ _ Hhome Hok) as Hok1.
  cbn [bind snd set_cal_clock button_reads dwells cal_clock] in Hrun.
  destruct (button_pin_low (S (button_reads w))).
  { injection Hrun as <-. exact Hok1. }
  cbn [delay button_reads dwells cal_clock] in Hrun.
  destruct (button_pin_low (S (S (button_reads w)))).
  { injection Hrun as <-. exact Hok1. }
  assert (Hok2 : clock_ok (step_back_one_hour c1)).
  { destruct Hok1 as (Hidle & Hspc & Hpos). unfold step_back_one_hour.
    split; [cbn [set_board board]; apply Step_keeps_idle; exact Hidle|].
    split; assumption. }
  destruct (button_pin_low (S (S (S (button_reads w))))).
  { injection Hrun as <-. exact Hok2. }
  apply IH in Hrun; [exact Hrun | exact Hok2].
Qed.

(** X25.  In every state that the constructor and the public methods
    ([Step], [UpdateClock], [Home], [Calibrate]) can produce, with any home
    sensor and pushbutton: the phase index lies inside the table of 4 or 8
    phases, no stepper output is left asserted, and the stored position is
    zero or less than a cycle from zero. *)
Theorem reachable_clock_ok c : reachable c -> clock_ok c.
Proof.
  induction 1 as [rapid full reversed half no c Hc
                 | c steps speed _ IH
                 | c t c' _ IH Hrun
                 | sensor c st c' _ IH Hrun
                 | sensor button fuel w w' _ IH Hrun].
  - destruct (clock_ctor_fields _ _ _ _ _ _ Hc) as (_ & Hspc & Hpos & _).
    unfold GenevaClockMechanics_ctor in Hc.
    destruct (GenericClockBoard_ctor rapid full reversed half no) as [b|] eqn:Hb;
      [|discriminate].
    cbn [bind] in Hc.
    apply (f_equal (fun o => match o with Some c0 => board c0 | None => b end)) in Hc.
    cbn [board] in Hc.
    split; [rewrite <- Hc; exact (ctor_board_idle _ _ _ _ _ _ Hb)|].
    split; [rewrite Hspc; apply to_int32_in_range | left; exact Hpos].
  - destruct IH as (Hidle & Hspc & Hpos).
    split; [cbn [set_board board]; apply Step_keeps_idle; exact Hidle|].
    split; assumption.
  - exact (UpdateClock_keeps_ok _ _ _ Hrun IH).
  - exact (Home_keeps_ok _ _ _ _ Hrun IH).
  - exact (Calibrate_keeps_ok _ _ _ _ _ Hrun IH).
Qed.

Lemma reachable_clock_ok_witness :
  exists c c',
    standard_clock = Some c /\ UpdateClock at_11_59 c = Some c' /\
    reachable c' /\ clock_ok c'.
Proof.
  do 2 eexists.
  assert (Hc : standard_clock = Some _) by reflexivity.
  split; [exact Hc|].
  match goal with
  | |- UpdateClock _ ?c = _ /\ _ =>
      assert (Hu : UpdateClock at_11_59 c = Some _)
        by (unfold UpdateClock; reflexivity)
  end.
  split; [exact Hu|].
  pose proof (reach_UpdateClock _ _ _ (reach_new _ _ _ _ _ _ Hc) Hu) as Hr.
  split; [exact Hr|].
  exact (reachable_clock_ok _ Hr).
Defined.
